(** * Amazon trace-header propagation (package [propagation], amazon.go)

    A shallow embedding of [MarshalAmazonTraceContext] and
    [UnmarshalAmazonTraceContext], with the parts of Go's [strings] and
    [fmt] packages they call, and the properties of the two functions.

    Go strings are byte sequences: they are modelled by [string], whose
    characters are the 256 byte values.  A [map[string]interface{}] is a
    [gmap string Value]; a nil pointer is [None].  The parser assigns to the
    fields of [prop] and to two local variables: the loop is a fold of its
    body over the segments, on a state that holds the three.  The
    context and the error it returns are a pair of options.  The
    order of [range] over a map, which Go leaves open, is an argument of the
    serializer. *)

From Stdlib Require Import Ascii NArith ZArith DecimalString.
From stdpp Require Import base option list strings gmap fin_maps.

(** ** The [strings] package *)

Module strings.

(** [c] occurs in [s] ([strings.IndexByte(s, c) >= 0]). *)
Fixpoint ContainsByte (s : string) (c : ascii) : bool :=
  match s with
  | EmptyString => false
  | String a s' => if Ascii.eqb a c then true else ContainsByte s' c
  end.

(** [strings.Cut(s, sep)] for a one-byte separator: the text before and
    after the first [sep], [None] when [sep] does not occur. *)
Fixpoint Cut (s : string) (sep : ascii) : option (string * string) :=
  match s with
  | EmptyString => None
  | String a s' =>
      if Ascii.eqb a sep then Some (EmptyString, s')
      else match Cut s' sep with
           | Some (before, after) => Some (String a before, after)
           | None => None
           end
  end.

(** [strings.Split(s, sep)] for a one-byte separator, the only way the
    source calls it: all the substrings between separators, so
    [Count(s, sep) + 1] of them ([Split("", ";")] is [[""]]). *)
Fixpoint Split (s : string) (sep : ascii) : list string :=
  match s with
  | EmptyString => [EmptyString]
  | String a s' =>
      if Ascii.eqb a sep then EmptyString :: Split s' sep
      else match Split s' sep with
           | x :: xs => String a x :: xs
           | [] => [String a EmptyString]
           end
  end.

(** [strings.SplitN(s, sep, n)] for a one-byte separator and [n >= 0]: at
    most [n] substrings, the last one being the unsplit remainder. *)
Fixpoint SplitN (s : string) (sep : ascii) (n : nat) : list string :=
  match n with
  | 0 => []
  | 1 => [s]
  | S n' =>
      match Cut s sep with
      | Some (before, after) => before :: SplitN after sep n'
      | None => [s]
      end
  end.

(** [strings.Join(elems, sep)]. *)
Fixpoint Join (elems : list string) (sep : string) : string :=
  match elems with
  | [] => EmptyString
  | [x] => x
  | x :: xs => x +:+ sep +:+ Join xs sep
  end.

(** One byte of [strings.ToLower]'s ASCII path: ['A'..'Z'] move to
    ['a'..'z'], every other byte stays. *)
Definition lowerByte (c : ascii) : ascii :=
  let n := N_of_ascii c in
  if ((65 <=? n) && (n <=? 90))%N then ascii_of_N (n + 32) else c.

(** [strings.ToLower(s)], byte by byte.  On a string with bytes above 127
    Go maps whole runes through the Unicode tables instead; the only such
    runes whose lower case is an ASCII letter are U+0130 and U+212A, which
    give [i] and [k], letters of none of the keys the parser compares the
    result with, so the comparison made by the parser is the same. *)
Fixpoint ToLower (s : string) : string :=
  match s with
  | EmptyString => EmptyString
  | String a s' => String (lowerByte a) (ToLower s')
  end.

(** [strings.Contains(s, substr)], as a proposition. *)
Definition Contains (s substr : string) : Prop :=
  ∃ pre post, s = pre +:+ substr +:+ post.

End strings.

(** ** Values of type [interface{}] and their [%v] formatting *)

(** The dynamic values a trace context holds: the parser stores strings
    only, callers of the serializer may also store numbers and booleans. *)
Inductive Value : Type :=
  | VString (s : string)
  | VInt (z : Z)
  | VBool (b : bool).

Module fmt.

(** [fmt.Sprintf("%v", v)]. *)
Definition Sprint_v (v : Value) : string :=
  match v with
  | VString s => s
  | VInt z => NilZero.string_of_int (Z.to_int z)
  | VBool true => "true"
  | VBool false => "false"
  end.

End fmt.

(** ** The propagation context and the error *)

(** Modelled from the spec: the struct [PropagationContext] is declared in
    another file of the package; its fields are those the spec's section 6
    lists. *)
Record PropagationContext : Type := mkPropagationContext {
  TraceID : string;
  ParentID : string;
  GrandParentID : string;
  TraceContext : gmap string Value
}.

(** Modelled from the spec: the method [IsValid] is declared with the
    struct; it holds iff [TraceID] and [ParentID] are both non-empty. *)
Definition IsValid (prop : PropagationContext) : bool :=
  negb (String.eqb (TraceID prop) "") && negb (String.eqb (ParentID prop) "").

(** Modelled from the spec: the struct [PropagationError], a message and an
    optional wrapped cause. *)
#[warnings="-register-all"]
Inductive error : Type :=
  | PropagationError (message : string) (wrappedError : option error).

Definition message (e : error) : string :=
  match e with PropagationError m _ => m end.

Definition wrappedError (e : error) : option error :=
  match e with PropagationError _ w => w end.

(** Field assignments through the pointer [prop]. *)
Definition set_TraceID (v : string) (p : PropagationContext) :=
  mkPropagationContext v (ParentID p) (GrandParentID p) (TraceContext p).
Definition set_ParentID (v : string) (p : PropagationContext) :=
  mkPropagationContext (TraceID p) v (GrandParentID p) (TraceContext p).
Definition set_GrandParentID (v : string) (p : PropagationContext) :=
  mkPropagationContext (TraceID p) (ParentID p) v (TraceContext p).
Definition set_TraceContext (k : string) (v : Value) (p : PropagationContext) :=
  mkPropagationContext (TraceID p) (ParentID p) (GrandParentID p)
    (<[k := v]> (TraceContext p)).

(** ** MarshalAmazonTraceContext *)

(** The order in which [range] visits a map is not fixed by Go; a serializer
    run is modelled with the order it happened to use, as a function from
    the map to the list of its entries. *)
Definition RangeOrder : Type := gmap string Value → list (string * Value).

(** A legal order visits every entry exactly once. *)
Definition LegalOrder (range : RangeOrder) : Prop :=
  ∀ m, range m ≡ₚ map_to_list m.

Definition MarshalAmazonTraceContext
    (range : RangeOrder) (prop : option PropagationContext) : string :=
  match prop with
  | None => ""
  | Some prop =>
      let h := "Root=" +:+ TraceID prop +:+ ";Parent=" +:+ ParentID prop in
      let h :=
        if negb (String.eqb (GrandParentID prop) "")
        then h +:+ ";GrandParent=" +:+ GrandParentID prop
        else h in
      let h :=
        if negb (size (TraceContext prop) =? 0)%nat then
          let elems :=
            (λ kv, kv.1 +:+ "=" +:+ fmt.Sprint_v kv.2)
              <$> range (TraceContext prop) in
          let traceContext := ";" +:+ strings.Join elems ";" in
          h +:+ traceContext
        else h in
      h
  end.

(** ** UnmarshalAmazonTraceContext *)

(** What the loop over the segments carries: the context under
    construction and the two local variables. *)
Record scanState : Type := mkScanState {
  prop : PropagationContext;
  parent : string;
  grandParent : string
}.

(** [prop := &PropagationContext{}], an empty [TraceContext], and
    [var parent, grandParent string]. *)
Definition initState : scanState :=
  mkScanState (mkPropagationContext "" "" "" ∅) "" "".

(** The body of the loop for one segment. *)
Definition scanSegment (st : scanState) (segment : string) : scanState :=
  match strings.SplitN segment "="%char 2 with
  | key :: val :: _ =>
      let lower := strings.ToLower key in
      if String.eqb lower "self" then
        mkScanState (set_ParentID val (prop st)) (parent st) (grandParent st)
      else if String.eqb lower "root" then
        mkScanState (set_TraceID val (prop st)) (parent st) (grandParent st)
      else if String.eqb lower "parent" then
        mkScanState (prop st) val (grandParent st)
      else if String.eqb lower "grandparent" then
        mkScanState (prop st) (parent st) val
      else
        mkScanState (set_TraceContext key (VString val) (prop st))
          (parent st) (grandParent st)
  | _ => st
  end.

(** The loop over all the segments of the header. *)
Definition scanSegments (header : string) : scanState :=
  fold_left scanSegment (strings.Split header ";"%char) initState.

(** The [switch] after the loop. *)
Definition reconcile (st : scanState) : PropagationContext :=
  let p := prop st in
  if (String.eqb (ParentID p) "") && negb (String.eqb (parent st) "") && negb (String.eqb (grandParent st) "")
  then set_GrandParentID (grandParent st) (set_ParentID (parent st) p)
  else if (String.eqb (ParentID p) "") && negb (String.eqb (parent st) "")
  then set_ParentID (parent st) p
  else if negb (String.eqb (ParentID p) "") && negb (String.eqb (parent st) "")
  then set_GrandParentID (parent st) p
  else p.

(** A header with a [Root] field only: the root is the parent too. *)
Definition rootFallback (p : PropagationContext) : PropagationContext :=
  if negb (String.eqb (TraceID p) "") && (String.eqb (ParentID p) "")
  then set_ParentID (TraceID p) p
  else p.

Definition errorPrefix : string :=
  "unable to parse header into propagationcontext: ".

Definition UnmarshalAmazonTraceContext (header : string)
    : option PropagationContext * option error :=
  let p := rootFallback (reconcile (scanSegments header)) in
  if negb (IsValid p)
  then (None, Some (PropagationError (errorPrefix +:+ header) None))
  else (Some p, None).

(** ** Notions the statements are written with *)

(** The context the parser validates: the one left by the switch and the
    root fallback. *)
Definition finalContext (header : string) : PropagationContext :=
  rootFallback (reconcile (scanSegments header)).

(** A string without [;]: what a segment of a header is. *)
Definition NoSemicolon (s : string) : Prop :=
  strings.ContainsByte s ";" = false.

(** A string without [=]: what the key of a segment is. *)
Definition NoEquals (s : string) : Prop :=
  strings.ContainsByte s "=" = false.

(** No id the loop has read holds a [;]. *)
Definition idsNoSemicolon (st : scanState) : Prop :=
  NoSemicolon (TraceID (prop st)) ∧ NoSemicolon (ParentID (prop st)) ∧
  NoSemicolon (GrandParentID (prop st)) ∧
  NoSemicolon (parent st) ∧ NoSemicolon (grandParent st).

(** The four keys the parser recognises, compared in lower case. *)
Definition recognized (lower : string) : bool :=
  String.eqb lower "self" || String.eqb lower "root" ||
  String.eqb lower "parent" || String.eqb lower "grandparent".

(** The key of a segment: the text before its first [=]. *)
Definition segmentKey (segment : string) : option string :=
  fst <$> strings.Cut segment "=".

(** The variable a recognised key, in lower case, is assigned to. *)
Definition fieldOf (lower : string) (st : scanState) : string :=
  if String.eqb lower "self" then ParentID (prop st)
  else if String.eqb lower "root" then TraceID (prop st)
  else if String.eqb lower "parent" then parent st
  else grandParent st.

(** The segments the serializer writes before those of the trace context. *)
Definition headSegments (ctx : PropagationContext) : list string :=
  ("Root=" +:+ TraceID ctx) :: ("Parent=" +:+ ParentID ctx) ::
  (if String.eqb (GrandParentID ctx) "" then []
   else ["GrandParent=" +:+ GrandParentID ctx]).

(** One [key=value] segment of the trace context. *)
Definition contextSegment (kv : string * Value) : string :=
  kv.1 +:+ "=" +:+ fmt.Sprint_v kv.2.

(** Segments appended one after the other, each behind a [;]. *)
Definition appendSegments (segments : list string) : string :=
  foldr (λ segment rest, ";" +:+ segment +:+ rest) "" segments.

(** A context whose trace id holds a [;]. *)
Definition semicolonContext : PropagationContext :=
  mkPropagationContext "a;b" "p" "" ∅.

(** A context whose grandparent id holds a [;]. *)
Definition semicolonGrandParent : PropagationContext :=
  mkPropagationContext "t" "p" "g;h" ∅.

(** A context with a grandparent and two custom fields, one a string and
    one a number. *)
Definition customFields : PropagationContext :=
  mkPropagationContext "1-abc" "2-def" "3-ghi"
    (<["foo" := VInt 32]> {[ "baz" := VString "true" ]}).

(** A key the parser stores in [TraceContext] under its own spelling:
    without [;] and [=], and not one of the four recognised keys. *)
Definition customKey (k : string) : Prop :=
  NoSemicolon k ∧ NoEquals k ∧ recognized (strings.ToLower k) = false.

(** What the parser reads back for a value the serializer wrote with
    [%v]: the text, as a string. *)
Definition stringified (v : Value) : Value := VString (fmt.Sprint_v v).

(** A context whose header is cut where the serializer joined it: no id
    and no formatted value holds a [;], and every key is a custom key. *)
Definition cleanContext (ctx : PropagationContext) : Prop :=
  NoSemicolon (TraceID ctx) ∧ NoSemicolon (ParentID ctx) ∧
  NoSemicolon (GrandParentID ctx) ∧
  map_Forall (λ k v, customKey k ∧ NoSemicolon (fmt.Sprint_v v))
    (TraceContext ctx).

(** The entries the loop has stored are strings without [;] under custom
    keys. *)
Definition storedStrings (m : gmap string Value) : Prop :=
  map_Forall (λ k v, customKey k ∧ ∃ s, v = VString s ∧ NoSemicolon s) m.

(** The variable a segment assigns. *)
Inductive Slot : Type :=
  | SlotSelf
  | SlotRoot
  | SlotParent
  | SlotGrandParent
  | SlotCustom (key : string).

(** The variable a segment assigns, [None] for a segment the loop skips. *)
Definition segmentSlot (segment : string) : option Slot :=
  match strings.SplitN segment "=" 2 with
  | key :: _ :: _ =>
      let lower := strings.ToLower key in
      Some (if String.eqb lower "self" then SlotSelf
            else if String.eqb lower "root" then SlotRoot
            else if String.eqb lower "parent" then SlotParent
            else if String.eqb lower "grandparent" then SlotGrandParent
            else SlotCustom key)
  | _ => None
  end.

#[global] Instance Slot_eq_dec : EqDecision Slot.
Proof. solve_decision. Defined.

(** * Facts about the [strings] functions *)

Section StringFacts.
Import strings.

(** The functions on the inputs Go's documentation gives, and on the edges
    the parser meets. *)
Example Split_examples :
  Split "a;b;c" ";" = ["a"; "b"; "c"] ∧ Split "" ";" = [""] ∧
  Split ";a;;b;" ";" = [""; "a"; ""; "b"; ""] ∧ Split "a=b" ";" = ["a=b"].
Proof. by repeat split. Qed.

Example SplitN_examples :
  SplitN "a=b=c" "=" 2 = ["a"; "b=c"] ∧ SplitN "abc" "=" 2 = ["abc"] ∧
  SplitN "" "=" 2 = [""] ∧ SplitN "a=" "=" 2 = ["a"; ""] ∧
  SplitN "=b" "=" 2 = [""; "b"].
Proof. by repeat split. Qed.

Example ToLower_examples :
  ToLower "GrandParent" = "grandparent" ∧ ToLower "SELF" = "self" ∧
  ToLower "x-B3_[Z]@" = "x-b3_[z]@".
Proof. by repeat split. Qed.

Example Join_examples :
  Join ["a"; "b"; "c"] ";" = "a;b;c" ∧ Join ["a"] ";" = "a" ∧ Join [] ";" = "".
Proof. by repeat split. Qed.

Lemma append_nil_l (s : string) : "" +:+ s = s.
Proof. reflexivity. Qed.

Lemma append_cons (a : ascii) (s t : string) :
  String a s +:+ t = String a (s +:+ t).
Proof. reflexivity. Qed.

Lemma append_nil_r (s : string) : s +:+ "" = s.
Proof. induction s as [|a s IH]; [done|]. by rewrite append_cons, IH. Qed.

Lemma append_assoc (s t u : string) : (s +:+ t) +:+ u = s +:+ (t +:+ u).
Proof. induction s as [|a s IH]; [done|]. by rewrite !append_cons, IH. Qed.

Lemma ContainsByte_app (s t : string) (c : ascii) :
  ContainsByte (s +:+ t) c = ContainsByte s c || ContainsByte t c.
Proof.
  induction s as [|a s IH]; [done|].
  rewrite append_cons. simpl. by destruct (Ascii.eqb a c).
Qed.

(** [Cut] finds the first separator. *)
Lemma Cut_None (s : string) (sep : ascii) :
  Cut s sep = None ↔ ContainsByte s sep = false.
Proof.
  induction s as [|a s IH]; simpl; [done|].
  destruct (Ascii.eqb a sep); [done|].
  destruct (Cut s sep) as [[b r]|]; split; intros H; try done.
  - apply IH in H. done.
  - by apply IH.
Qed.

Lemma Cut_app (k v : string) (sep : ascii) :
  ContainsByte k sep = false → Cut (k +:+ String sep v) sep = Some (k, v).
Proof.
  induction k as [|a k IH]; intros Hk.
  - rewrite append_nil_l. simpl. by rewrite Ascii.eqb_refl.
  - rewrite append_cons. simpl in *.
    destruct (Ascii.eqb a sep); [done|]. by rewrite IH.
Qed.

Lemma Cut_Some (s b r : string) (sep : ascii) :
  Cut s sep = Some (b, r) →
  s = b +:+ String sep r ∧ ContainsByte b sep = false.
Proof.
  revert b. induction s as [|a s IH]; intros b; simpl; [done|].
  destruct (Ascii.eqb_spec a sep) as [->|Hne].
  - intros [= <- <-]. done.
  - destruct (Cut s sep) as [[b' r']|]; [|done].
    intros [= <- <-]. destruct (IH b' eq_refl) as [-> Hb'].
    split; [done|]. simpl.
    destruct (Ascii.eqb_spec a sep); [done|]. done.
Qed.

(** [SplitN(s, sep, 2)]: one piece without a separator, else the key and
    everything after the first separator. *)
Lemma SplitN_2_None (s : string) (sep : ascii) :
  ContainsByte s sep = false → SplitN s sep 2 = [s].
Proof. intros H%Cut_None. simpl. by rewrite H. Qed.

Lemma SplitN_2_Some (k v : string) (sep : ascii) :
  ContainsByte k sep = false → SplitN (k +:+ String sep v) sep 2 = [k; v].
Proof. intros H. simpl. by rewrite Cut_app. Qed.

Lemma SplitN_2_cases (s : string) (sep : ascii) :
  (ContainsByte s sep = false ∧ SplitN s sep 2 = [s]) ∨
  (∃ k v, s = k +:+ String sep v ∧ ContainsByte k sep = false ∧
          SplitN s sep 2 = [k; v]).
Proof.
  destruct (Cut s sep) as [[k v]|] eqn:Hc.
  - right. exists k, v. destruct (Cut_Some _ _ _ _ Hc) as [-> Hk].
    auto using SplitN_2_Some.
  - left. apply Cut_None in Hc. auto using SplitN_2_None.
Qed.

(** [Split] and [Join] are inverse of each other. *)
Lemma Split_not_nil (s : string) (sep : ascii) : Split s sep ≠ [].
Proof.
  destruct s as [|a s]; simpl; [done|].
  destruct (Ascii.eqb a sep); [done|]. by destruct (Split s sep).
Qed.

Lemma Join_cons (x : string) (xs : list string) (sep : string) :
  xs ≠ [] → Join (x :: xs) sep = x +:+ sep +:+ Join xs sep.
Proof. by destruct xs. Qed.

Lemma Join_Split (s : string) (sep : ascii) :
  Join (Split s sep) (String sep "") = s.
Proof.
  induction s as [|a s IH]; simpl; [done|].
  pose proof (Split_not_nil s sep) as Hnil.
  destruct (Ascii.eqb_spec a sep) as [->|Hne].
  - rewrite Join_cons by done. by rewrite IH.
  - destruct (Split s sep) as [|x xs]; [done|].
    destruct xs as [|y ys]; simpl in *; [by rewrite IH|].
    rewrite append_cons. by rewrite IH.
Qed.

Lemma Split_Forall (s : string) (sep : ascii) :
  Forall (λ x, ContainsByte x sep = false) (Split s sep).
Proof.
  induction s as [|a s IH]; simpl; [by constructor|].
  destruct (Ascii.eqb_spec a sep) as [->|Hne].
  - by constructor.
  - destruct (Split s sep) as [|x xs]; [|inversion IH; subst];
      constructor; simpl; try done;
      by destruct (Ascii.eqb_spec a sep).
Qed.

Lemma Split_app (x r : string) (sep : ascii) :
  ContainsByte x sep = false →
  Split (x +:+ String sep r) sep = x :: Split r sep.
Proof.
  induction x as [|a x IH]; intros Hx.
  - rewrite append_nil_l. simpl. by rewrite Ascii.eqb_refl.
  - rewrite append_cons. simpl in *.
    destruct (Ascii.eqb a sep); [done|]. by rewrite IH.
Qed.

Lemma Split_None (x : string) (sep : ascii) :
  ContainsByte x sep = false → Split x sep = [x].
Proof.
  induction x as [|a x IH]; intros Hx; simpl in *; [done|].
  destruct (Ascii.eqb a sep); [done|]. by rewrite IH.
Qed.

Lemma Split_Join (l : list string) (sep : ascii) :
  l ≠ [] → Forall (λ x, ContainsByte x sep = false) l →
  Split (Join l (String sep "")) sep = l.
Proof.
  induction l as [|x xs IH]; intros Hnil Hall; [done|].
  inversion Hall as [|?? Hx Hxs]; subst.
  destruct xs as [|y ys].
  - simpl. by apply Split_None.
  - rewrite Join_cons by done. rewrite append_cons, append_nil_l.
    rewrite Split_app by done. by rewrite IH.
Qed.

(** [ToLower] moves no byte onto or away from a byte that is not a
    letter. *)
Lemma ContainsByte_ToLower_fixed (c : ascii) (s : string) :
  (∀ a, lowerByte a = c ↔ a = c) →
  ContainsByte (ToLower s) c = ContainsByte s c.
Proof.
  intros Hc. induction s as [|a s IH]; simpl; [done|]. rewrite IH.
  destruct (Ascii.eqb_spec (lowerByte a) c) as [H|H];
    destruct (Ascii.eqb_spec a c) as [H'|H']; try done.
  - apply (proj1 (Hc a)) in H. congruence.
  - apply (proj2 (Hc a)) in H'. congruence.
Qed.

Lemma lowerByte_equals (a : ascii) : lowerByte a = "="%char ↔ a = "="%char.
Proof.
  destruct a as [[] [] [] [] [] [] [] []]; vm_compute; split; congruence.
Qed.

Lemma lowerByte_semicolon (a : ascii) : lowerByte a = ";"%char ↔ a = ";"%char.
Proof.
  destruct a as [[] [] [] [] [] [] [] []]; vm_compute; split; congruence.
Qed.

Lemma ContainsByte_ToLower (s : string) :
  ContainsByte (ToLower s) "=" = ContainsByte s "=".
Proof. apply ContainsByte_ToLower_fixed, lowerByte_equals. Qed.

Lemma ContainsByte_ToLower_semicolon (s : string) :
  ContainsByte (ToLower s) ";" = ContainsByte s ";".
Proof. apply ContainsByte_ToLower_fixed, lowerByte_semicolon. Qed.

Lemma lowerByte_idemp (a : ascii) : lowerByte (lowerByte a) = lowerByte a.
Proof. by destruct a as [[] [] [] [] [] [] [] []]. Qed.

Lemma ToLower_idemp (s : string) : ToLower (ToLower s) = ToLower s.
Proof.
  induction s as [|a s IH]; simpl; [done|]. by rewrite lowerByte_idemp, IH.
Qed.

End StringFacts.

(** * Facts about the parser's loop *)

Section LoopFacts.
Import strings.

Lemma key_val_segment (k v : string) : k +:+ "=" +:+ v = k +:+ String "=" v.
Proof. reflexivity. Qed.

(** A segment without [=] is skipped. *)
Lemma scanSegment_skip (st : scanState) (segment : string) :
  NoEquals segment → scanSegment st segment = st.
Proof. intros H. unfold scanSegment. by rewrite SplitN_2_None. Qed.

(** A segment [key=val] is split at the first [=]. *)
Lemma scanSegment_key_val (st : scanState) (key val : string) :
  NoEquals key →
  scanSegment st (key +:+ "=" +:+ val) =
    let lower := ToLower key in
    if String.eqb lower "self" then
      mkScanState (set_ParentID val (prop st)) (parent st) (grandParent st)
    else if String.eqb lower "root" then
      mkScanState (set_TraceID val (prop st)) (parent st) (grandParent st)
    else if String.eqb lower "parent" then
      mkScanState (prop st) val (grandParent st)
    else if String.eqb lower "grandparent" then
      mkScanState (prop st) (parent st) val
    else
      mkScanState (set_TraceContext key (VString val) (prop st))
        (parent st) (grandParent st).
Proof.
  intros H. unfold scanSegment.
  rewrite key_val_segment, SplitN_2_Some by done. done.
Qed.

(** A key that lower-cases to a recognised key holds no [=]. *)
Lemma recognized_NoEquals (key : string) :
  recognized (ToLower key) = true → NoEquals key.
Proof.
  unfold recognized, NoEquals. intros H.
  rewrite <- ContainsByte_ToLower.
  repeat (apply orb_true_iff in H as [H|H]);
    apply String.eqb_eq in H; by rewrite H.
Qed.

Lemma recognized_NoSemicolon (key : string) :
  recognized (ToLower key) = true → NoSemicolon key.
Proof.
  unfold recognized, NoSemicolon. intros H.
  rewrite <- ContainsByte_ToLower_semicolon.
  repeat (apply orb_true_iff in H as [H|H]);
    apply String.eqb_eq in H; by rewrite H.
Qed.

(** The loop runs over the segments a header was joined from. *)
Lemma scan_fold_Split_Join (segments : list string) (st : scanState) :
  Forall NoSemicolon segments →
  fold_left scanSegment (Split (Join segments ";") ";") st =
    fold_left scanSegment segments st.
Proof.
  intros Hall. destruct segments as [|x xs].
  - simpl. by apply scanSegment_skip.
  - by rewrite Split_Join.
Qed.

Lemma scanSegments_Join (segments : list string) :
  Forall NoSemicolon segments →
  scanSegments (Join segments ";") = fold_left scanSegment segments initState.
Proof. apply scan_fold_Split_Join. Qed.

(** The loop never assigns [GrandParentID]. *)
Lemma scanSegment_GrandParentID (st : scanState) (segment : string) :
  GrandParentID (prop (scanSegment st segment)) = GrandParentID (prop st).
Proof.
  unfold scanSegment.
  destruct (SplitN segment "=" 2) as [|key [|val rest]]; try done.
  simpl. repeat case_match; done.
Qed.

Lemma fold_scan_GrandParentID (segments : list string) (st : scanState) :
  GrandParentID (prop (fold_left scanSegment segments st)) =
    GrandParentID (prop st).
Proof.
  revert st. induction segments as [|x xs IH]; intros st; simpl; [done|].
  by rewrite IH, scanSegment_GrandParentID.
Qed.

Lemma scanSegments_GrandParentID (header : string) :
  GrandParentID (prop (scanSegments header)) = "".
Proof. unfold scanSegments. by rewrite fold_scan_GrandParentID. Qed.

End LoopFacts.

(** Truth of the tests the code makes on strings. *)
Lemma eqb_empty_true (s : string) : String.eqb s "" = true ↔ s = "".
Proof. apply String.eqb_eq. Qed.

Lemma eqb_empty_false (s : string) : String.eqb s "" = false ↔ s ≠ "".
Proof. apply String.eqb_neq. Qed.

Lemma IsValid_true (p : PropagationContext) :
  IsValid p = true ↔ TraceID p ≠ "" ∧ ParentID p ≠ "".
Proof.
  unfold IsValid. rewrite andb_true_iff, !negb_true_iff, !eqb_empty_false. done.
Qed.

Lemma IsValid_false (p : PropagationContext) :
  IsValid p = false ↔ TraceID p = "" ∨ ParentID p = "".
Proof.
  unfold IsValid. rewrite andb_false_iff, !negb_false_iff, !eqb_empty_true. done.
Qed.

Lemma rootFallback_id (p : PropagationContext) :
  ParentID p ≠ "" → rootFallback p = p.
Proof.
  intros H%eqb_empty_false. unfold rootFallback. rewrite H.
  by rewrite andb_false_r.
Qed.

Lemma rootFallback_root (p : PropagationContext) :
  TraceID p ≠ "" → ParentID p = "" → rootFallback p = set_ParentID (TraceID p) p.
Proof.
  intros H%eqb_empty_false H'%eqb_empty_true. unfold rootFallback.
  by rewrite H, H'.
Qed.

Lemma rootFallback_TraceID (p : PropagationContext) :
  TraceID (rootFallback p) = TraceID p.
Proof. unfold rootFallback. by case_match. Qed.

Ltac string_tests :=
  repeat match goal with
  | |- context [String.eqb ?s ""] =>
      let E := fresh "E" in
      destruct (String.eqb_spec s "") as [E|E]; try rewrite E in *
  end; simpl in *.

(** * The reconciliation switch *)

(** C1.  Reconciliation after the scan of all segments.  For every header,
    with [ParentID] the value left by a [self] segment, [parent] by a
    [parent] segment and [grandParent] by a [grandparent] segment, exactly
    one update of the pair ([ParentID], [GrandParentID]) is applied:
    - [ParentID] empty, [parent] and [grandParent] non-empty: [ParentID]
      becomes [parent] and [GrandParentID] becomes [grandParent];
    - [ParentID] empty, [parent] non-empty, [grandParent] empty: [ParentID]
      becomes [parent];
    - [ParentID] and [parent] non-empty: [GrandParentID] becomes [parent],
      whatever [grandParent] is;
    - otherwise ([parent] empty) nothing changes.
    [TraceID] and [TraceContext] are never touched, and [GrandParentID] is
    empty before the switch.  The last conjunct is the spec's example of a
    header that went through a load balancer. *)
Theorem reconcile_cases (header : string) :
  let st := scanSegments header in
  let before := prop st in
  let after := reconcile st in
  TraceID after = TraceID before ∧
  TraceContext after = TraceContext before ∧
  GrandParentID before = "" ∧
  (ParentID before = "" → parent st ≠ "" → grandParent st ≠ "" →
     ParentID after = parent st ∧ GrandParentID after = grandParent st) ∧
  (ParentID before = "" → parent st ≠ "" → grandParent st = "" →
     ParentID after = parent st ∧ GrandParentID after = GrandParentID before) ∧
  (ParentID before ≠ "" → parent st ≠ "" →
     ParentID after = ParentID before ∧ GrandParentID after = parent st) ∧
  (parent st = "" → after = before) ∧
  UnmarshalAmazonTraceContext "Root=1-abc;Self=2-def;Parent=3-ghi" =
    (Some (mkPropagationContext "1-abc" "2-def" "3-ghi" ∅), None).
Proof.
  intros st before after. subst before after.
  pose proof (scanSegments_GrandParentID header) as Hgp. fold st in Hgp.
  generalize dependent st. intros st Hgp.
  destruct st as [[t p g c] par gpar]. simpl in *. subst g.
  unfold reconcile. simpl.
  repeat split; intros; string_tests; congruence.
Qed.

(** The four rows of the switch, each on a header that reaches it. *)
Lemma reconcile_cases_witness :
  let after (header : string) := reconcile (scanSegments header) in
  let h1 := "Root=1-abc;Parent=3-ghi;GrandParent=4-jkl" in
  let h2 := "Root=1-abc;Parent=3-ghi" in
  let h3 := "Root=1-abc;Self=2-def;Parent=3-ghi;GrandParent=4-jkl" in
  let h4 := "Root=1-abc;Self=2-def" in
  (ParentID (after h1) = "3-ghi" ∧ GrandParentID (after h1) = "4-jkl") ∧
  (ParentID (after h2) = "3-ghi" ∧ GrandParentID (after h2) = "") ∧
  (ParentID (after h3) = "2-def" ∧ GrandParentID (after h3) = "3-ghi") ∧
  after h4 = mkPropagationContext "1-abc" "2-def" "" ∅.
Proof.
  intros after h1 h2 h3 h4.
  destruct (reconcile_cases h1) as (_ & _ & _ & H1 & _).
  destruct (reconcile_cases h2) as (_ & _ & _ & _ & H2 & _).
  destruct (reconcile_cases h3) as (_ & _ & _ & _ & _ & H3 & _).
  destruct (reconcile_cases h4) as (_ & _ & _ & _ & _ & _ & H4 & _).
  split; [|split; [|split]].
  - exact (H1 eq_refl ltac:(discriminate) ltac:(discriminate)).
  - exact (H2 eq_refl ltac:(discriminate) eq_refl).
  - exact (H3 ltac:(discriminate) ltac:(discriminate)).
  - exact (H4 eq_refl).
Defined.

(** * The serializer's output *)

Section MarshalFacts.
Import strings.

Lemma Join_app (l1 l2 : list string) (sep : string) :
  l1 ≠ [] → l2 ≠ [] →
  Join (l1 ++ l2) sep = Join l1 sep +:+ sep +:+ Join l2 sep.
Proof.
  intros H1 H2. induction l1 as [|x xs IH]; [done|].
  destruct xs as [|y ys].
  - change ([x] ++ l2) with (x :: l2). by rewrite Join_cons.
  - change ((x :: y :: ys) ++ l2) with (x :: (y :: ys) ++ l2).
    rewrite (Join_cons x) by (by destruct l2).
    rewrite IH by done. rewrite (Join_cons x (y :: ys)) by done.
    by rewrite !append_assoc.
Qed.

Lemma Join_headSegments (ctx : PropagationContext) :
  Join (headSegments ctx) ";" =
    "Root=" +:+ TraceID ctx +:+ ";Parent=" +:+ ParentID ctx +:+
    (if String.eqb (GrandParentID ctx) "" then ""
     else ";GrandParent=" +:+ GrandParentID ctx).
Proof.
  unfold headSegments. destruct (String.eqb (GrandParentID ctx) "").
  - simpl. by rewrite append_nil_r.
  - cbn [Join]. rewrite !append_assoc. done.
Qed.

(** Without a trace context the output is the head segments joined. *)
Lemma Marshal_empty_context (range : RangeOrder) (ctx : PropagationContext) :
  TraceContext ctx = ∅ →
  MarshalAmazonTraceContext range (Some ctx) = Join (headSegments ctx) ";".
Proof.
  intros Hc. unfold MarshalAmazonTraceContext. rewrite Hc, map_size_empty.
  rewrite Join_headSegments. cbn [Nat.eqb negb].
  destruct (String.eqb (GrandParentID ctx) ""); cbn [negb].
  - by rewrite append_nil_r.
  - by rewrite !append_assoc.
Qed.

(** With one the output is all the segments joined, those of the
    context in the order of the iteration. *)
Lemma Marshal_Join (range : RangeOrder) (ctx : PropagationContext) :
  LegalOrder range →
  MarshalAmazonTraceContext range (Some ctx) =
    Join (headSegments ctx ++ (contextSegment <$> range (TraceContext ctx))) ";".
Proof.
  intros Hlegal. specialize (Hlegal (TraceContext ctx)).
  unfold MarshalAmazonTraceContext.
  destruct (Nat.eqb_spec (size (TraceContext ctx)) 0) as [Hsz|Hsz]; cbn [negb].
  - apply map_size_empty_inv in Hsz.
    rewrite Hsz, map_to_list_empty in Hlegal.
    apply Permutation_nil_r in Hlegal. rewrite Hsz, Hlegal.
    rewrite fmap_nil, (right_id_L [] (++)), Join_headSegments.
    destruct (String.eqb (GrandParentID ctx) ""); cbn [negb].
    + by rewrite append_nil_r.
    + by rewrite !append_assoc.
  - assert (range (TraceContext ctx) ≠ []) as Hne.
    { intros Hnil. apply Hsz. rewrite Hnil in Hlegal. symmetry in Hlegal.
      apply Permutation_nil_r, map_to_list_empty_iff in Hlegal.
      rewrite Hlegal. apply map_size_empty. }
    rewrite Join_app; [| done | by destruct (range (TraceContext ctx))].
    rewrite Join_headSegments. fold contextSegment.
    destruct (String.eqb (GrandParentID ctx) ""); cbn [negb].
    + rewrite !append_assoc, append_nil_l. done.
    + rewrite !append_assoc. done.
Qed.

End MarshalFacts.

(** * Parsing what the serializer wrote *)

Section RoundTrip.
Import strings.

Lemma scanSegment_Root (st : scanState) (v : string) :
  scanSegment st ("Root=" +:+ v) =
    mkScanState (set_TraceID v (prop st)) (parent st) (grandParent st).
Proof. exact (scanSegment_key_val st "Root" v eq_refl). Qed.

Lemma scanSegment_Parent (st : scanState) (v : string) :
  scanSegment st ("Parent=" +:+ v) = mkScanState (prop st) v (grandParent st).
Proof. exact (scanSegment_key_val st "Parent" v eq_refl). Qed.

Lemma scanSegment_GrandParent (st : scanState) (v : string) :
  scanSegment st ("GrandParent=" +:+ v) = mkScanState (prop st) (parent st) v.
Proof. exact (scanSegment_key_val st "GrandParent" v eq_refl). Qed.

Lemma headSegments_NoSemicolon (ctx : PropagationContext) :
  NoSemicolon (TraceID ctx) → NoSemicolon (ParentID ctx) →
  NoSemicolon (GrandParentID ctx) →
  Forall NoSemicolon (headSegments ctx).
Proof.
  intros Ht Hp Hg.
  assert (∀ k v, NoSemicolon k → NoSemicolon v → NoSemicolon (k +:+ v)) as Happ.
  { unfold NoSemicolon. intros k v Hk Hv. by rewrite ContainsByte_app, Hk, Hv. }
  unfold headSegments. destruct (String.eqb (GrandParentID ctx) "");
    repeat constructor; by apply Happ.
Qed.

(** The loop over the head segments leaves the trace id in the context and
    the two other ids in the local variables. *)
Lemma scan_headSegments (ctx : PropagationContext) :
  NoSemicolon (TraceID ctx) → NoSemicolon (ParentID ctx) →
  NoSemicolon (GrandParentID ctx) →
  scanSegments (Join (headSegments ctx) ";") =
    mkScanState (mkPropagationContext (TraceID ctx) "" "" ∅)
      (ParentID ctx) (GrandParentID ctx).
Proof.
  intros Ht Hp Hg.
  rewrite scanSegments_Join by by apply headSegments_NoSemicolon.
  unfold headSegments.
  destruct (String.eqb_spec (GrandParentID ctx) "") as [->|Hne]; cbn [fold_left].
  - by rewrite scanSegment_Root, scanSegment_Parent.
  - by rewrite scanSegment_Root, scanSegment_Parent, scanSegment_GrandParent.
Qed.

(** A valid context without a trace context, none of whose ids holds a
    [;], is parsed back from its header as it was. *)
Lemma reconcile_parent_only (t p g : string) :
  p ≠ "" →
  reconcile (mkScanState (mkPropagationContext t "" "" ∅) p g) =
    mkPropagationContext t p g ∅.
Proof.
  intros Hp%eqb_empty_false. unfold reconcile.
  cbn [prop parent grandParent ParentID String.eqb andb]. rewrite Hp.
  by destruct (String.eqb_spec g "") as [->|Hg].
Qed.

Lemma Unmarshal_Marshal_ids (range : RangeOrder) (ctx : PropagationContext) :
  TraceID ctx ≠ "" → ParentID ctx ≠ "" → TraceContext ctx = ∅ →
  NoSemicolon (TraceID ctx) → NoSemicolon (ParentID ctx) →
  NoSemicolon (GrandParentID ctx) →
  UnmarshalAmazonTraceContext (MarshalAmazonTraceContext range (Some ctx)) =
    (Some ctx, None).
Proof.
  intros Ht Hp Hc St Sp Sg.
  rewrite Marshal_empty_context by done.
  unfold UnmarshalAmazonTraceContext. rewrite scan_headSegments by done.
  rewrite reconcile_parent_only by done.
  destruct ctx as [t p g c]. cbn [TraceID ParentID GrandParentID TraceContext] in *.
  subst c. rewrite rootFallback_id by done.
  assert (IsValid (mkPropagationContext t p g ∅) = true) as ->; [|done].
  by apply IsValid_true.
Qed.

End RoundTrip.

(** C2, as stated, fails on a trace id that holds a [;]: the parser cuts
    the header at that byte and returns the trace id ["a"]. *)
Lemma roundtrip_semicolon_counterexample :
  (TraceID semicolonContext ≠ "" ∧ ParentID semicolonContext ≠ "" ∧
   GrandParentID semicolonContext = "" ∧ TraceContext semicolonContext = ∅) ∧
  MarshalAmazonTraceContext map_to_list (Some semicolonContext) =
    "Root=a;b;Parent=p" ∧
  UnmarshalAmazonTraceContext "Root=a;b;Parent=p" =
    (Some (mkPropagationContext "a" "p" "" ∅), None) ∧
  ¬ (∃ ctx',
       UnmarshalAmazonTraceContext
         (MarshalAmazonTraceContext map_to_list (Some semicolonContext)) =
         (Some ctx', None) ∧
       TraceID ctx' = TraceID semicolonContext ∧
       ParentID ctx' = ParentID semicolonContext).
Proof.
  split; [by repeat split|]. split; [reflexivity|]. split; [reflexivity|].
  intros (ctx' & Hres & Ht & _).
  change (UnmarshalAmazonTraceContext
            (MarshalAmazonTraceContext map_to_list (Some semicolonContext)))
    with (Some (mkPropagationContext "a" "p" "" ∅), @None error) in Hres.
  injection Hres as <-. discriminate Ht.
Qed.

(** C2 (amended).  Round trip: for every context with non-empty [TraceID]
    and [ParentID], neither of which holds a [;], an empty [GrandParentID]
    and an empty [TraceContext], parsing the serialized context succeeds
    and returns a context with the same [TraceID] and the same [ParentID],
    whatever order the serializer iterates in. *)
Theorem roundtrip_ids (range : RangeOrder) (ctx : PropagationContext) :
  TraceID ctx ≠ "" → ParentID ctx ≠ "" →
  GrandParentID ctx = "" → TraceContext ctx = ∅ →
  NoSemicolon (TraceID ctx) → NoSemicolon (ParentID ctx) →
  ∃ ctx',
    UnmarshalAmazonTraceContext (MarshalAmazonTraceContext range (Some ctx)) =
      (Some ctx', None) ∧
    TraceID ctx' = TraceID ctx ∧ ParentID ctx' = ParentID ctx.
Proof.
  intros Ht Hp Hg Hc St Sp. exists ctx.
  rewrite Unmarshal_Marshal_ids; try done. by rewrite Hg.
Qed.

Lemma roundtrip_ids_witness :
  ∃ ctx',
    UnmarshalAmazonTraceContext
      (MarshalAmazonTraceContext map_to_list
         (Some (mkPropagationContext "1-abc" "2-def" "" ∅))) =
      (Some ctx', None) ∧
    TraceID ctx' = "1-abc" ∧ ParentID ctx' = "2-def".
Proof.
  apply (roundtrip_ids map_to_list (mkPropagationContext "1-abc" "2-def" "" ∅));
    solve [ discriminate | reflexivity ].
Defined.

(** C9, as stated, fails on a grandparent id that holds a [;]: the parser
    cuts the header at that byte and returns the grandparent id ["g"]. *)
Lemma roundtrip_grandparent_counterexample :
  (TraceID semicolonGrandParent ≠ "" ∧ ParentID semicolonGrandParent ≠ "" ∧
   GrandParentID semicolonGrandParent ≠ "" ∧
   TraceContext semicolonGrandParent = ∅) ∧
  MarshalAmazonTraceContext map_to_list (Some semicolonGrandParent) =
    "Root=t;Parent=p;GrandParent=g;h" ∧
  UnmarshalAmazonTraceContext "Root=t;Parent=p;GrandParent=g;h" =
    (Some (mkPropagationContext "t" "p" "g" ∅), None) ∧
  ¬ (∃ ctx',
       UnmarshalAmazonTraceContext
         (MarshalAmazonTraceContext map_to_list (Some semicolonGrandParent)) =
         (Some ctx', None) ∧
       TraceID ctx' = TraceID semicolonGrandParent ∧
       ParentID ctx' = ParentID semicolonGrandParent ∧
       GrandParentID ctx' = GrandParentID semicolonGrandParent).
Proof.
  split; [by repeat split|]. split; [reflexivity|]. split; [reflexivity|].
  intros (ctx' & Hres & _ & _ & Hg).
  change (UnmarshalAmazonTraceContext
            (MarshalAmazonTraceContext map_to_list (Some semicolonGrandParent)))
    with (Some (mkPropagationContext "t" "p" "g" ∅), @None error) in Hres.
  injection Hres as <-. discriminate Hg.
Qed.

(** C9 (amended).  Extended round trip: for every context with non-empty
    [TraceID], [ParentID] and [GrandParentID], none of which holds a [;],
    and an empty [TraceContext], parsing the serialized context succeeds and
    returns a context whose [TraceID], [ParentID] and [GrandParentID] are
    those of the context: without a [Self] segment the [Parent] and
    [GrandParent] segments go back to the fields they came from. *)
Theorem roundtrip_grandparent (range : RangeOrder) (ctx : PropagationContext) :
  TraceID ctx ≠ "" → ParentID ctx ≠ "" → GrandParentID ctx ≠ "" →
  TraceContext ctx = ∅ →
  NoSemicolon (TraceID ctx) → NoSemicolon (ParentID ctx) →
  NoSemicolon (GrandParentID ctx) →
  ∃ ctx',
    UnmarshalAmazonTraceContext (MarshalAmazonTraceContext range (Some ctx)) =
      (Some ctx', None) ∧
    TraceID ctx' = TraceID ctx ∧ ParentID ctx' = ParentID ctx ∧
    GrandParentID ctx' = GrandParentID ctx.
Proof.
  intros Ht Hp Hg Hc St Sp Sg. exists ctx.
  by rewrite Unmarshal_Marshal_ids.
Qed.

Lemma roundtrip_grandparent_witness :
  ∃ ctx',
    UnmarshalAmazonTraceContext
      (MarshalAmazonTraceContext map_to_list
         (Some (mkPropagationContext "1-abc" "3-ghi" "4-jkl" ∅))) =
      (Some ctx', None) ∧
    TraceID ctx' = "1-abc" ∧ ParentID ctx' = "3-ghi" ∧
    GrandParentID ctx' = "4-jkl".
Proof.
  apply (roundtrip_grandparent map_to_list
           (mkPropagationContext "1-abc" "3-ghi" "4-jkl" ∅));
    solve [ discriminate | reflexivity ].
Defined.

(** * Validation and the root fallback *)

Lemma Unmarshal_valid (header : string) :
  IsValid (finalContext header) = true →
  UnmarshalAmazonTraceContext header = (Some (finalContext header), None).
Proof.
  intros H. unfold UnmarshalAmazonTraceContext. fold (finalContext header).
  by rewrite H.
Qed.

Lemma Unmarshal_invalid (header : string) :
  IsValid (finalContext header) = false →
  UnmarshalAmazonTraceContext header =
    (None, Some (PropagationError (errorPrefix +:+ header) None)).
Proof.
  intros H. unfold UnmarshalAmazonTraceContext. fold (finalContext header).
  by rewrite H.
Qed.

(** The root fallback leaves a context invalid only for want of a trace id. *)
Lemma rootFallback_invalid (p : PropagationContext) :
  IsValid (rootFallback p) = false ↔ TraceID p = "".
Proof.
  rewrite IsValid_false, rootFallback_TraceID. unfold rootFallback.
  destruct p as [t q g c]; simpl.
  destruct (String.eqb_spec t "") as [->|Ht];
    destruct (String.eqb_spec q "") as [->|Hq]; simpl; intuition congruence.
Qed.

Lemma reconcile_TraceID (st : scanState) :
  TraceID (reconcile st) = TraceID (prop st).
Proof.
  destruct st as [[t p g c] par gpar]. unfold reconcile. simpl.
  string_tests; done.
Qed.

(** C3.  The parser fails exactly when the context it validates, the one
    left by the reconciliation switch and the root fallback, is invalid.
    For every header, it returns no context and a [PropagationError] whose
    message contains the header iff [TraceID] or [ParentID] of that context
    is empty, which is the case iff the loop found no non-empty [Root].
    Any error it returns comes with no context and the message
    ["unable to parse header into propagationcontext: " ++ header]; without
    an error the validated context is returned.  The empty header fails. *)
Theorem unmarshal_fails_iff_invalid (header : string) :
  let final := finalContext header in
  let result := UnmarshalAmazonTraceContext header in
  ((∃ err, result = (None, Some err) ∧ strings.Contains (message err) header)
     ↔ (TraceID final = "" ∨ ParentID final = "")) ∧
  ((TraceID final = "" ∨ ParentID final = "")
     ↔ TraceID (prop (scanSegments header)) = "") ∧
  (∀ err, result.2 = Some err →
     result.1 = None ∧ err = PropagationError (errorPrefix +:+ header) None) ∧
  (result.2 = None → result.1 = Some final) ∧
  UnmarshalAmazonTraceContext "" =
    (None, Some (PropagationError errorPrefix None)).
Proof.
  intros final result. subst final result.
  rewrite <- IsValid_false.
  destruct (IsValid (finalContext header)) eqn:Hv.
  - rewrite (Unmarshal_valid _ Hv). repeat split; try done.
    + intros (err & [=] & _).
    + unfold finalContext in Hv. intros Ht.
      rewrite <- reconcile_TraceID in Ht. apply rootFallback_invalid in Ht.
      congruence.
  - rewrite (Unmarshal_invalid _ Hv). repeat split; try done.
    + intros _. eexists; split; [done|]. exists errorPrefix, "".
      simpl. by rewrite append_nil_r.
    + intros _. unfold finalContext in Hv. apply rootFallback_invalid in Hv.
      by rewrite reconcile_TraceID in Hv.
    + simpl in *. congruence.
Qed.

(** A header without a root fails, one with a root is accepted. *)
Lemma unmarshal_fails_iff_invalid_witness :
  (∃ err, UnmarshalAmazonTraceContext "Self=2-def;Parent=3-ghi" = (None, Some err) ∧
          strings.Contains (message err) "Self=2-def;Parent=3-ghi") ∧
  (UnmarshalAmazonTraceContext "Root=1-abc;Self=2-def").1 =
    Some (mkPropagationContext "1-abc" "2-def" "" ∅).
Proof.
  split.
  - apply (unmarshal_fails_iff_invalid "Self=2-def;Parent=3-ghi"). by left.
  - apply (unmarshal_fails_iff_invalid "Root=1-abc;Self=2-def"). reflexivity.
Defined.

(** C4.  Root-only fallback.  For every header that leaves, after the
    reconciliation switch, a non-empty [TraceID] and a still empty
    [ParentID], the parser succeeds and returns the reconciled context with
    [ParentID] set to [TraceID].  In particular ["Root=1-abc"] is parsed
    into [TraceID = ParentID = "1-abc"] with an empty [GrandParentID]. *)
Theorem root_only_fallback :
  (∀ header : string,
     let reconciled := reconcile (scanSegments header) in
     TraceID reconciled ≠ "" → ParentID reconciled = "" →
     ∃ ctx,
       UnmarshalAmazonTraceContext header = (Some ctx, None) ∧
       ParentID ctx = TraceID ctx ∧
       ctx = set_ParentID (TraceID reconciled) reconciled) ∧
  UnmarshalAmazonTraceContext "Root=1-abc" =
    (Some (mkPropagationContext "1-abc" "1-abc" "" ∅), None).
Proof.
  split; [|reflexivity].
  intros header reconciled Ht Hp. eexists. split; [|split].
  - apply Unmarshal_valid. unfold finalContext. fold reconciled.
    rewrite rootFallback_root by done. by apply IsValid_true.
  - unfold finalContext. fold reconciled. by rewrite rootFallback_root.
  - unfold finalContext. fold reconciled. by rewrite rootFallback_root.
Qed.

(** The fallback on a header with a root and a custom field. *)
Lemma root_only_fallback_witness :
  ∃ ctx,
    UnmarshalAmazonTraceContext "Root=1-abc;foo=32" = (Some ctx, None) ∧
    ParentID ctx = TraceID ctx ∧
    ctx = mkPropagationContext "1-abc" "1-abc" "" {[ "foo" := VString "32" ]}.
Proof.
  apply (proj1 root_only_fallback "Root=1-abc;foo=32");
    [discriminate | reflexivity].
Defined.

(** * Segments *)

(** What the parser returns depends on the header through the state the
    loop leaves, the text of the error apart. *)
Lemma Unmarshal_context (header : string) :
  (UnmarshalAmazonTraceContext header).1 =
    (if IsValid (finalContext header) then Some (finalContext header) else None).
Proof.
  unfold UnmarshalAmazonTraceContext. fold (finalContext header).
  by destruct (IsValid (finalContext header)).
Qed.

Lemma Unmarshal_same_scan (h1 h2 : string) :
  scanSegments h1 = scanSegments h2 →
  (UnmarshalAmazonTraceContext h1).1 = (UnmarshalAmazonTraceContext h2).1.
Proof.
  intros H. rewrite !Unmarshal_context. unfold finalContext. by rewrite H.
Qed.

Lemma Forall_NoSemicolon_app (l1 l2 : list string) (x : string) :
  Forall NoSemicolon l1 → NoSemicolon x → Forall NoSemicolon l2 →
  Forall NoSemicolon (l1 ++ x :: l2).
Proof. intros H1 Hx H2. apply Forall_app. split; [done|]. by constructor. Qed.

(** The loop over a header made of the segments [before], one more
    segment, and the segments [after]. *)
Lemma scanSegments_middle (before after : list string) (segment : string) :
  Forall NoSemicolon before → NoSemicolon segment → Forall NoSemicolon after →
  scanSegments (strings.Join (before ++ segment :: after) ";") =
    fold_left scanSegment after
      (scanSegment (fold_left scanSegment before initState) segment).
Proof.
  intros Hb Hs Ha.
  rewrite scanSegments_Join by by apply Forall_NoSemicolon_app.
  by rewrite fold_left_app.
Qed.

Lemma scanSegments_without (before after : list string) :
  Forall NoSemicolon before → Forall NoSemicolon after →
  scanSegments (strings.Join (before ++ after) ";") =
    fold_left scanSegment after (fold_left scanSegment before initState).
Proof.
  intros Hb Ha.
  rewrite scanSegments_Join by (apply Forall_app; by split).
  by rewrite fold_left_app.
Qed.

(** C5.  Segment handling.  For every header the loop runs over the pieces
    of the header between the [;] bytes (joined by [;] they give the header
    back, and none holds a [;]).  A segment is split at its first [=] only:
    whatever the value is, even with [=] bytes of its own, [key=value] is
    handled with that key and that value.  A segment without [=] leaves the
    state of the loop as it is, so a header with such a segment anywhere is
    scanned into the same state, and parsed into the same context or
    failure, as the header without it.  The examples are a header with a
    malformed segment and one with a value holding [=]. *)
Theorem segment_handling :
  (∀ header : string,
     scanSegments header =
       fold_left scanSegment (strings.Split header ";") initState ∧
     strings.Join (strings.Split header ";") ";" = header ∧
     Forall NoSemicolon (strings.Split header ";")) ∧
  (∀ key val : string,
     NoEquals key → strings.SplitN (key +:+ "=" +:+ val) "=" 2 = [key; val]) ∧
  (∀ segment : string,
     NoEquals segment → strings.SplitN segment "=" 2 = [segment]) ∧
  (∀ (st : scanState) (segment : string),
     NoEquals segment → scanSegment st segment = st) ∧
  (∀ (before after : list string) (segment : string),
     Forall NoSemicolon before → Forall NoSemicolon after →
     NoSemicolon segment → NoEquals segment →
     let with_segment := strings.Join (before ++ segment :: after) ";" in
     let without := strings.Join (before ++ after) ";" in
     scanSegments with_segment = scanSegments without ∧
     (UnmarshalAmazonTraceContext with_segment).1 =
       (UnmarshalAmazonTraceContext without).1) ∧
  UnmarshalAmazonTraceContext "Root=1-abc;malformed;Self=2-def" =
    UnmarshalAmazonTraceContext "Root=1-abc;Self=2-def" ∧
  UnmarshalAmazonTraceContext "Root=1-abc;Self=2-def;foo=a=b" =
    (Some (mkPropagationContext "1-abc" "2-def" ""
             {[ "foo" := VString "a=b" ]}), None).
Proof.
  split; [|split; [|split; [|split; [|split; [|split]]]]].
  - intros header. split; [done|]. split.
    + apply Join_Split.
    + apply Split_Forall.
  - intros key val Hk. rewrite key_val_segment. by apply SplitN_2_Some.
  - intros segment Hs. by apply SplitN_2_None.
  - apply scanSegment_skip.
  - intros before after segment Hb Ha Hs He with_segment without.
    assert (scanSegments with_segment = scanSegments without) as Hscan.
    { subst with_segment without.
      rewrite scanSegments_middle, scanSegments_without by done.
      by rewrite scanSegment_skip. }
    split; [done|]. by apply Unmarshal_same_scan.
  - reflexivity.
  - reflexivity.
Qed.

(** A segment without [=] between two well-formed ones. *)
Lemma segment_handling_witness :
  scanSegments "Root=1-abc;malformed;Self=2-def" =
    scanSegments "Root=1-abc;Self=2-def" ∧
  (UnmarshalAmazonTraceContext "Root=1-abc;malformed;Self=2-def").1 =
    (UnmarshalAmazonTraceContext "Root=1-abc;Self=2-def").1.
Proof.
  destruct segment_handling as (_ & _ & _ & _ & H & _).
  apply (H ["Root=1-abc"] ["Self=2-def"] "malformed");
    solve [ repeat constructor | reflexivity ].
Defined.

(** * The shape of the serialized header *)

Lemma appendSegments_Join (segments : list string) :
  segments ≠ [] → ";" +:+ strings.Join segments ";" = appendSegments segments.
Proof.
  induction segments as [|x xs IH]; intros Hnil; [done|].
  destruct xs as [|y ys].
  - simpl. by rewrite append_nil_r.
  - rewrite Join_cons by done.
    change (appendSegments (x :: y :: ys))
      with (";" +:+ x +:+ appendSegments (y :: ys)).
    by rewrite <- IH.
Qed.

Lemma LegalOrder_nil (range : RangeOrder) (m : gmap string Value) :
  LegalOrder range → (range m = [] ↔ size m = 0).
Proof.
  intros Hlegal. specialize (Hlegal m).
  rewrite map_size_empty_iff, <- map_to_list_empty_iff. split; intros H.
  - rewrite H in Hlegal. symmetry in Hlegal. by apply Permutation_nil_r.
  - rewrite H in Hlegal. by apply Permutation_nil_r.
Qed.

(** The part of the header written for the trace context. *)
Lemma context_tail (range : RangeOrder) (m : gmap string Value)
    (f : string * Value → string) (h : string) :
  LegalOrder range →
  (if negb (size m =? 0)%nat
   then h +:+ ";" +:+ strings.Join (f <$> range m) ";" else h) =
    h +:+ appendSegments (f <$> range m).
Proof.
  intros Hlegal.
  destruct (Nat.eqb_spec (size m) 0) as [Hsz|Hsz]; cbn [negb].
  - apply (LegalOrder_nil range _ Hlegal) in Hsz. rewrite Hsz. simpl.
    by rewrite append_nil_r.
  - rewrite appendSegments_Join; [done|].
    intros Hnil. apply fmap_nil_inv in Hnil.
    by apply (LegalOrder_nil range _ Hlegal) in Hnil.
Qed.

(** C6.  Output shape of the serializer.  For every context and every
    legal iteration order over its [TraceContext], the header is
    ["Root=<TraceID>;Parent=<ParentID>"], followed by
    [";GrandParent=<GrandParentID>"] iff [GrandParentID] is non-empty,
    followed by one [";key=value"] segment per entry the iteration visits;
    the iteration visits every entry of [TraceContext] exactly once (no key
    twice, and a pair is visited iff the map holds it), in an order that is
    not fixed. *)
Theorem marshal_shape (range : RangeOrder) (ctx : PropagationContext) :
  LegalOrder range →
  let entries := range (TraceContext ctx) in
  MarshalAmazonTraceContext range (Some ctx) =
    ("Root=" +:+ TraceID ctx +:+ ";Parent=" +:+ ParentID ctx) +:+
    (if String.eqb (GrandParentID ctx) "" then ""
     else ";GrandParent=" +:+ GrandParentID ctx) +:+
    appendSegments ((λ kv, kv.1 +:+ "=" +:+ fmt.Sprint_v kv.2) <$> entries) ∧
  entries ≡ₚ map_to_list (TraceContext ctx) ∧
  NoDup (entries.*1) ∧
  length entries = size (TraceContext ctx) ∧
  (∀ k v, (k, v) ∈ entries ↔ TraceContext ctx !! k = Some v).
Proof.
  intros Hlegal entries.
  assert (entries ≡ₚ map_to_list (TraceContext ctx)) as Hperm by apply Hlegal.
  split; [|split; [done|split; [|split]]].
  - unfold MarshalAmazonTraceContext. cbv zeta. fold entries.
    unfold entries. rewrite context_tail by done.
    destruct (String.eqb (GrandParentID ctx) ""); cbn [negb].
    + done.
    + by rewrite !append_assoc.
  - rewrite Hperm. apply NoDup_fst_map_to_list.
  - rewrite Hperm. apply length_map_to_list.
  - intros k v. rewrite Hperm. apply elem_of_map_to_list.
Qed.

(** The order in which [map_to_list] lists the entries is a legal one. *)
Lemma map_to_list_LegalOrder : LegalOrder map_to_list.
Proof. intros m. reflexivity. Qed.

Lemma marshal_shape_witness :
  LegalOrder map_to_list ∧
  MarshalAmazonTraceContext map_to_list (Some customFields) =
    ("Root=" +:+ "1-abc" +:+ ";Parent=" +:+ "2-def") +:+
    (";GrandParent=" +:+ "3-ghi") +:+
    appendSegments
      ((λ kv, kv.1 +:+ "=" +:+ fmt.Sprint_v kv.2) <$>
       map_to_list (TraceContext customFields)) ∧
  map_to_list (TraceContext customFields) ≡ₚ
    map_to_list (TraceContext customFields) ∧
  NoDup ((map_to_list (TraceContext customFields)).*1) ∧
  length (map_to_list (TraceContext customFields)) = 2 ∧
  (∀ k v, (k, v) ∈ map_to_list (TraceContext customFields) ↔
          TraceContext customFields !! k = Some v).
Proof.
  split; [exact map_to_list_LegalOrder|].
  exact (marshal_shape map_to_list customFields map_to_list_LegalOrder).
Defined.

Example marshal_customFields :
  MarshalAmazonTraceContext map_to_list (Some customFields) =
    "Root=1-abc;Parent=2-def;GrandParent=3-ghi;foo=32;baz=true".
Proof. vm_compute. reflexivity. Qed.

(** * Classification of the keys *)

Section KeyFacts.
Import strings.

Lemma scanSegment_recognized (st : scanState) (key val : string) :
  recognized (ToLower key) = true →
  scanSegment st (key +:+ "=" +:+ val) =
    let lower := ToLower key in
    if String.eqb lower "self" then
      mkScanState (set_ParentID val (prop st)) (parent st) (grandParent st)
    else if String.eqb lower "root" then
      mkScanState (set_TraceID val (prop st)) (parent st) (grandParent st)
    else if String.eqb lower "parent" then
      mkScanState (prop st) val (grandParent st)
    else
      mkScanState (prop st) (parent st) val.
Proof.
  intros Hrec. rewrite scanSegment_key_val by by apply recognized_NoEquals.
  unfold recognized in Hrec. cbv zeta.
  destruct (String.eqb (ToLower key) "self"); [done|].
  destruct (String.eqb (ToLower key) "root"); [done|].
  destruct (String.eqb (ToLower key) "parent"); [done|].
  by destruct (String.eqb (ToLower key) "grandparent").
Qed.

Lemma scanSegment_other (st : scanState) (key val : string) :
  NoEquals key → recognized (ToLower key) = false →
  scanSegment st (key +:+ "=" +:+ val) =
    mkScanState (set_TraceContext key (VString val) (prop st))
      (parent st) (grandParent st).
Proof.
  intros Hk Hrec. rewrite scanSegment_key_val by done.
  unfold recognized in Hrec. cbv zeta.
  destruct (String.eqb (ToLower key) "self"); [done|].
  destruct (String.eqb (ToLower key) "root"); [done|].
  destruct (String.eqb (ToLower key) "parent"); [done|].
  by destruct (String.eqb (ToLower key) "grandparent").
Qed.

(** Two spellings of a recognised key are handled alike. *)
Lemma scanSegment_case_insensitive (st : scanState) (key key' val : string) :
  recognized (ToLower key) = true → ToLower key' = ToLower key →
  scanSegment st (key' +:+ "=" +:+ val) = scanSegment st (key +:+ "=" +:+ val).
Proof.
  intros Hrec Hlow. rewrite !scanSegment_recognized by by rewrite ?Hlow.
  by rewrite Hlow.
Qed.

(** A segment with another key leaves the entry of [k] as it is. *)
Lemma scanSegment_lookup_other (st : scanState) (segment k : string) :
  segmentKey segment ≠ Some k →
  TraceContext (prop (scanSegment st segment)) !! k =
    TraceContext (prop st) !! k.
Proof.
  unfold segmentKey, scanSegment. simpl.
  destruct (Cut segment "=") as [[key val]|]; simpl; [|done].
  intros Hne. assert (key ≠ k) by congruence.
  repeat case_match; simpl; try done. by apply lookup_insert_ne.
Qed.

Lemma fold_scan_lookup_other (segments : list string) (st : scanState)
    (k : string) :
  Forall (λ segment, segmentKey segment ≠ Some k) segments →
  TraceContext (prop (fold_left scanSegment segments st)) !! k =
    TraceContext (prop st) !! k.
Proof.
  intros Hall. revert st.
  induction Hall as [|x xs Hx Hxs IH]; intros st; simpl; [done|].
  by rewrite IH, scanSegment_lookup_other.
Qed.

Lemma finalContext_TraceContext (header : string) :
  TraceContext (finalContext header) = TraceContext (prop (scanSegments header)).
Proof.
  unfold finalContext, rootFallback, reconcile.
  destruct (scanSegments header) as [[t p g c] par gpar]. simpl.
  string_tests; done.
Qed.

End KeyFacts.

(** C7.  Classification of the keys.  A segment whose key lower-cases to
    [self], [root], [parent] or [grandparent] assigns its value to
    [ParentID], [TraceID], [parent] or [grandParent], however the key is
    spelled; a header in which a recognised key is spelled in another case
    is scanned into the same state, so parsed alike
    (["root=1-abc;SELF=2-def"] as ["Root=1-abc;Self=2-def"]).  A segment
    with any other key stores its value, as a string, in [TraceContext]
    under the key as it is spelled; the context the parser returns holds it
    there unless a later segment has the very same key. *)
Theorem key_classification :
  (∀ (st : scanState) (key val : string),
     (strings.ToLower key = "self" →
      scanSegment st (key +:+ "=" +:+ val) =
        mkScanState (set_ParentID val (prop st)) (parent st) (grandParent st)) ∧
     (strings.ToLower key = "root" →
      scanSegment st (key +:+ "=" +:+ val) =
        mkScanState (set_TraceID val (prop st)) (parent st) (grandParent st)) ∧
     (strings.ToLower key = "parent" →
      scanSegment st (key +:+ "=" +:+ val) =
        mkScanState (prop st) val (grandParent st)) ∧
     (strings.ToLower key = "grandparent" →
      scanSegment st (key +:+ "=" +:+ val) =
        mkScanState (prop st) (parent st) val) ∧
     (NoEquals key → recognized (strings.ToLower key) = false →
      scanSegment st (key +:+ "=" +:+ val) =
        mkScanState (set_TraceContext key (VString val) (prop st))
          (parent st) (grandParent st))) ∧
  (∀ (before after : list string) (key key' val : string),
     Forall NoSemicolon before → Forall NoSemicolon after → NoSemicolon val →
     recognized (strings.ToLower key) = true →
     strings.ToLower key' = strings.ToLower key →
     let header := strings.Join (before ++ (key +:+ "=" +:+ val) :: after) ";" in
     let header' := strings.Join (before ++ (key' +:+ "=" +:+ val) :: after) ";" in
     scanSegments header' = scanSegments header ∧
     (UnmarshalAmazonTraceContext header').1 =
       (UnmarshalAmazonTraceContext header).1) ∧
  (∀ (before after : list string) (key val : string),
     Forall NoSemicolon before → Forall NoSemicolon after →
     NoSemicolon key → NoSemicolon val →
     NoEquals key → recognized (strings.ToLower key) = false →
     Forall (λ segment, segmentKey segment ≠ Some key) after →
     let header := strings.Join (before ++ (key +:+ "=" +:+ val) :: after) ";" in
     TraceContext (finalContext header) !! key = Some (VString val) ∧
     ∀ ctx, (UnmarshalAmazonTraceContext header).1 = Some ctx →
            TraceContext ctx !! key = Some (VString val)) ∧
  UnmarshalAmazonTraceContext "root=1-abc;SELF=2-def" =
    UnmarshalAmazonTraceContext "Root=1-abc;Self=2-def" ∧
  UnmarshalAmazonTraceContext "Root=1-abc;Self=2-def;Foo=32;baz=true" =
    (Some (mkPropagationContext "1-abc" "2-def" ""
             {[ "Foo" := VString "32"; "baz" := VString "true" ]}), None).
Proof.
  split; [|split; [|split; [|split]]].
  - intros st key val. repeat split.
    + intros H. rewrite scanSegment_recognized by by rewrite H. by rewrite H.
    + intros H. rewrite scanSegment_recognized by by rewrite H. by rewrite H.
    + intros H. rewrite scanSegment_recognized by by rewrite H. by rewrite H.
    + intros H. rewrite scanSegment_recognized by by rewrite H. by rewrite H.
    + apply scanSegment_other.
  - intros before after key key' val Hb Ha Hv Hrec Hlow header header'.
    assert (∀ k, recognized (strings.ToLower k) = true →
                 NoSemicolon (k +:+ "=" +:+ val)) as Hseg.
    { intros k Hk%recognized_NoSemicolon. unfold NoSemicolon in *.
      by rewrite !ContainsByte_app, Hk, Hv. }
    assert (scanSegments header' = scanSegments header) as Hscan.
    { subst header header'.
      rewrite !scanSegments_middle by (done || apply Hseg; by rewrite ?Hlow).
      by rewrite (scanSegment_case_insensitive _ key key'). }
    split; [done|]. by apply Unmarshal_same_scan.
  - intros before after key val Hb Ha Hk Hv He Hrec Hafter header.
    assert (TraceContext (finalContext header) !! key = Some (VString val))
      as Hlookup.
    { subst header. rewrite finalContext_TraceContext.
      rewrite scanSegments_middle; [|done| |done].
      - rewrite fold_scan_lookup_other by done.
        rewrite scanSegment_other by done. simpl. apply lookup_insert_eq.
      - unfold NoSemicolon in *. by rewrite !ContainsByte_app, Hk, Hv. }
    split; [done|]. intros ctx. rewrite Unmarshal_context.
    destruct (IsValid (finalContext header)); [|done]. by intros [= <-].
  - reflexivity.
  - vm_compute. reflexivity.
Qed.

(** The same header with the recognised keys in another case, and a custom
    field that a later field does not overwrite. *)
Lemma key_classification_witness :
  (scanSegments "Root=1-abc;SELF=2-def;foo=32" =
     scanSegments "Root=1-abc;Self=2-def;foo=32" ∧
   (UnmarshalAmazonTraceContext "Root=1-abc;SELF=2-def;foo=32").1 =
     (UnmarshalAmazonTraceContext "Root=1-abc;Self=2-def;foo=32").1) ∧
  (TraceContext (finalContext "Root=1-abc;Foo=32;foo=33") !! "Foo" =
     Some (VString "32") ∧
   ∀ ctx, (UnmarshalAmazonTraceContext "Root=1-abc;Foo=32;foo=33").1 = Some ctx →
          TraceContext ctx !! "Foo" = Some (VString "32")).
Proof.
  destruct key_classification as (_ & Hcase & Hother & _).
  split.
  - apply (Hcase ["Root=1-abc"] ["foo=32"] "Self" "SELF" "2-def");
      solve [ repeat constructor | reflexivity ].
  - apply (Hother ["Root=1-abc"] ["foo=33"] "Foo" "32");
      solve [ repeat constructor; discriminate | reflexivity ].
Defined.

(** * The absent context *)

(** C8.  The serializer maps the nil context to the empty string, and
    returns a header, never an error, for every input and every iteration
    order, legal or not. *)
Theorem marshal_nil (range : RangeOrder) :
  MarshalAmazonTraceContext range None = "" ∧
  ∀ prop : option PropagationContext,
    ∃ h : string, MarshalAmazonTraceContext range prop = h.
Proof. split; [reflexivity|]. intros p. by eexists. Qed.

(** * Recognised keys with an empty value *)

Lemma scanSegment_empty_value (st : scanState) (key : string) :
  recognized (strings.ToLower key) = true →
  fieldOf (strings.ToLower key) (scanSegment st (key +:+ "=")) = "".
Proof.
  intros Hrec. rewrite <- (append_nil_r (key +:+ "=")), append_assoc.
  rewrite scanSegment_recognized by done. unfold fieldOf. cbv zeta.
  destruct (String.eqb (strings.ToLower key) "self") eqn:E1; [done|].
  destruct (String.eqb (strings.ToLower key) "root") eqn:E2; [done|].
  destruct (String.eqb (strings.ToLower key) "parent") eqn:E3; [done|].
  done.
Qed.

Lemma scanSegment_empty_value_absent (st : scanState) (key : string) :
  recognized (strings.ToLower key) = true →
  fieldOf (strings.ToLower key) st = "" →
  scanSegment st (key +:+ "=") = st.
Proof.
  intros Hrec. rewrite <- (append_nil_r (key +:+ "=")), append_assoc.
  rewrite scanSegment_recognized by done. unfold fieldOf. cbv zeta.
  destruct st as [[t p g c] par gpar]. simpl.
  destruct (String.eqb (strings.ToLower key) "self"); [by intros ->|].
  destruct (String.eqb (strings.ToLower key) "root"); [by intros ->|].
  destruct (String.eqb (strings.ToLower key) "parent"); by intros ->.
Qed.

(** C10.  A recognised key with an empty value behaves as an absent one.
    For every state of the loop and every spelling of a recognised key,
    the segment [key=] leaves the variable of that key empty; when that
    variable was empty before, the state is the one before the segment, so
    that a header with such a segment, at a place where the variable is
    still empty, is scanned and parsed as the header without it.  The switch
    and the root fallback read the state of the loop only, which holds the
    values and no mark of which keys were seen: two headers scanned into the
    same state are parsed into the same context.  So ["Root=1-abc;Parent="]
    is parsed as ["Root=1-abc"], into [ParentID = "1-abc"]. *)
Theorem empty_value_as_absent :
  (∀ (st : scanState) (key : string),
     recognized (strings.ToLower key) = true →
     fieldOf (strings.ToLower key) (scanSegment st (key +:+ "=")) = "" ∧
     (fieldOf (strings.ToLower key) st = "" →
      scanSegment st (key +:+ "=") = st)) ∧
  (∀ (before after : list string) (key : string),
     Forall NoSemicolon before → Forall NoSemicolon after →
     recognized (strings.ToLower key) = true →
     fieldOf (strings.ToLower key) (fold_left scanSegment before initState) = "" →
     let with_segment := strings.Join (before ++ (key +:+ "=") :: after) ";" in
     let without := strings.Join (before ++ after) ";" in
     scanSegments with_segment = scanSegments without ∧
     (UnmarshalAmazonTraceContext with_segment).1 =
       (UnmarshalAmazonTraceContext without).1) ∧
  (∀ h1 h2 : string,
     scanSegments h1 = scanSegments h2 →
     (UnmarshalAmazonTraceContext h1).1 = (UnmarshalAmazonTraceContext h2).1) ∧
  parent (scanSegments "Root=1-abc;Parent=") = "" ∧
  UnmarshalAmazonTraceContext "Root=1-abc;Parent=" =
    (Some (mkPropagationContext "1-abc" "1-abc" "" ∅), None) ∧
  UnmarshalAmazonTraceContext "Root=1-abc;Parent=" =
    UnmarshalAmazonTraceContext "Root=1-abc" ∧
  UnmarshalAmazonTraceContext "Root=1-abc;Self=" =
    UnmarshalAmazonTraceContext "Root=1-abc".
Proof.
  split; [|split; [|split; [|repeat split]]].
  - intros st key Hrec. split.
    + by apply scanSegment_empty_value.
    + by apply scanSegment_empty_value_absent.
  - intros before after key Hb Ha Hrec Hfield with_segment without.
    assert (scanSegments with_segment = scanSegments without) as Hscan.
    { subst with_segment without.
      rewrite scanSegments_middle, scanSegments_without; try done.
      - by rewrite scanSegment_empty_value_absent.
      - apply recognized_NoSemicolon in Hrec. unfold NoSemicolon in *.
        by rewrite ContainsByte_app, Hrec. }
    split; [done|]. by apply Unmarshal_same_scan.
  - apply Unmarshal_same_scan.
Qed.

(** An empty [Parent] after the root, and an empty [GrandParent] between
    two fields. *)
Lemma empty_value_as_absent_witness :
  (fieldOf "parent" (scanSegment initState "PARENT=") = "" ∧
   (fieldOf "parent" initState = "" → scanSegment initState "PARENT=" = initState)) ∧
  (scanSegments "Root=1-abc;grandParent=;Parent=3-ghi" =
     scanSegments "Root=1-abc;Parent=3-ghi" ∧
   (UnmarshalAmazonTraceContext "Root=1-abc;grandParent=;Parent=3-ghi").1 =
     (UnmarshalAmazonTraceContext "Root=1-abc;Parent=3-ghi").1).
Proof.
  destruct empty_value_as_absent as (Hstep & Hheader & _).
  split.
  - apply (Hstep initState "PARENT"). reflexivity.
  - apply (Hheader ["Root=1-abc"] ["Parent=3-ghi"] "grandParent");
      solve [ repeat constructor | reflexivity ].
Defined.

(** * The ids the parser returns *)

Section IdFacts.
Import strings.

Lemma scanSegment_idsNoSemicolon (st : scanState) (segment : string) :
  NoSemicolon segment → idsNoSemicolon st →
  idsNoSemicolon (scanSegment st segment).
Proof.
  intros Hseg (Ht & Hp & Hg & Hpar & Hgpar).
  destruct (SplitN_2_cases segment "=") as [[Hne _]|(k & v & -> & Hk & _)].
  - by rewrite scanSegment_skip.
  - assert (NoSemicolon v) as Hv.
    { unfold NoSemicolon in *. rewrite ContainsByte_app in Hseg.
      apply orb_false_iff in Hseg as [_ Hseg]. simpl in Hseg.
      by destruct (Ascii.eqb "=" ";"). }
    rewrite <- key_val_segment, scanSegment_key_val by done. cbv zeta.
    unfold idsNoSemicolon. repeat case_match; simpl; done.
Qed.

Lemma scanSegments_idsNoSemicolon (header : string) :
  idsNoSemicolon (scanSegments header).
Proof.
  unfold scanSegments.
  assert (idsNoSemicolon initState) as Hinit by by repeat split.
  revert Hinit. generalize initState.
  induction (Split_Forall header ";") as [|x xs Hx Hxs IH]; intros st Hst;
    simpl; [done|].
  apply IH. by apply scanSegment_idsNoSemicolon.
Qed.

Lemma finalContext_NoSemicolon (header : string) :
  NoSemicolon (TraceID (finalContext header)) ∧
  NoSemicolon (ParentID (finalContext header)) ∧
  NoSemicolon (GrandParentID (finalContext header)).
Proof.
  destruct (scanSegments_idsNoSemicolon header) as (Ht & Hp & Hg & Hpar & Hgpar).
  unfold finalContext, rootFallback, reconcile.
  destruct (scanSegments header) as [[t p g c] par gpar]. simpl in *.
  string_tests; done.
Qed.

Lemma Unmarshal_NoSemicolon (header : string) (ctx : PropagationContext) :
  UnmarshalAmazonTraceContext header = (Some ctx, None) →
  NoSemicolon (TraceID ctx) ∧ NoSemicolon (ParentID ctx) ∧
  NoSemicolon (GrandParentID ctx).
Proof.
  intros H. pose proof (Unmarshal_context header) as Hctx.
  rewrite H in Hctx. simpl in Hctx.
  destruct (IsValid (finalContext header)); [|done].
  injection Hctx as ->. apply finalContext_NoSemicolon.
Qed.

End IdFacts.

(** X1.  No id of a parsed context holds a [;]: for every header the
    parser accepts, [TraceID], [ParentID] and [GrandParentID] of the
    returned context are values of segments, and the header was cut at
    every [;]. *)
Theorem parsed_ids_no_semicolon (header : string) (ctx : PropagationContext) :
  UnmarshalAmazonTraceContext header = (Some ctx, None) →
  NoSemicolon (TraceID ctx) ∧ NoSemicolon (ParentID ctx) ∧
  NoSemicolon (GrandParentID ctx).
Proof. apply Unmarshal_NoSemicolon. Qed.

Lemma parsed_ids_no_semicolon_witness :
  NoSemicolon "1-abc" ∧ NoSemicolon "2-def" ∧ NoSemicolon "3-ghi".
Proof.
  exact (parsed_ids_no_semicolon "Root=1-abc;Self=2-def;Parent=3-ghi"
           (mkPropagationContext "1-abc" "2-def" "3-ghi" ∅) eq_refl).
Defined.

(** X2.  The condition of the round trip is needed: for every iteration
    order, a context whose header is parsed back into its own [TraceID] and
    [ParentID] has no [;] in either. *)
Theorem roundtrip_needs_no_semicolon
    (range : RangeOrder) (ctx ctx' : PropagationContext) :
  UnmarshalAmazonTraceContext (MarshalAmazonTraceContext range (Some ctx)) =
    (Some ctx', None) →
  TraceID ctx' = TraceID ctx → ParentID ctx' = ParentID ctx →
  NoSemicolon (TraceID ctx) ∧ NoSemicolon (ParentID ctx).
Proof.
  intros H Ht Hp. apply Unmarshal_NoSemicolon in H as (H1 & H2 & _).
  by rewrite <- Ht, <- Hp.
Qed.

Lemma roundtrip_needs_no_semicolon_witness :
  NoSemicolon "1-abc" ∧ NoSemicolon "2-def".
Proof.
  exact (roundtrip_needs_no_semicolon map_to_list
           (mkPropagationContext "1-abc" "2-def" "" ∅)
           (mkPropagationContext "1-abc" "2-def" "" ∅)
           eq_refl eq_refl eq_refl).
Defined.

(** * The trace context through serializer and parser *)

Section ContextRoundTrip.
Import strings.

Lemma contextSegment_NoSemicolon (kv : string * Value) :
  NoSemicolon kv.1 → NoSemicolon (fmt.Sprint_v kv.2) →
  NoSemicolon (contextSegment kv).
Proof.
  unfold NoSemicolon, contextSegment. intros Hk Hv.
  by rewrite !ContainsByte_app, Hk, Hv.
Qed.

Lemma scanSegment_contextSegment (st : scanState) (kv : string * Value) :
  customKey kv.1 →
  scanSegment st (contextSegment kv) =
    mkScanState (set_TraceContext kv.1 (stringified kv.2) (prop st))
      (parent st) (grandParent st).
Proof. intros (_ & He & Hrec). by apply scanSegment_other. Qed.

(** The loop over the segments of the entries inserts them one by one. *)
Lemma fold_contextSegments (l : list (string * Value)) (st : scanState) :
  Forall (λ kv, customKey kv.1) l →
  fold_left scanSegment (contextSegment <$> l) st =
    mkScanState
      (mkPropagationContext (TraceID (prop st)) (ParentID (prop st))
         (GrandParentID (prop st))
         (fold_left (λ c kv, <[kv.1 := stringified kv.2]> c) l
            (TraceContext (prop st))))
      (parent st) (grandParent st).
Proof.
  intros Hall. revert st.
  induction Hall as [|kv l Hkv Hl IH]; intros st.
  - by destruct st as [[t p g c] par gpar].
  - cbn [fmap list_fmap fold_left]. rewrite scanSegment_contextSegment by done.
    by rewrite IH.
Qed.

Lemma fold_right_insert (f : Value → Value) (l : list (string * Value)) :
  fold_right (λ kv c, <[kv.1 := f kv.2]> c) (∅ : gmap string Value) l =
    list_to_map (prod_map id f <$> l).
Proof.
  induction l as [|[k v] l IH]; [done|]. simpl. by rewrite IH.
Qed.

(** Inserted in any order that lists each entry once, the entries of a map
    give the map back, with the values as they were read. *)
Lemma fold_left_insert_entries (f : Value → Value)
    (l : list (string * Value)) (m : gmap string Value) :
  l ≡ₚ map_to_list m →
  fold_left (λ c kv, <[kv.1 := f kv.2]> c) l ∅ = f <$> m.
Proof.
  intros Hperm.
  rewrite <- (fold_left_rev_right (λ kv c, <[kv.1 := f kv.2]> c)).
  rewrite fold_right_insert.
  rewrite <- (list_to_map_to_list m), <- list_to_map_fmap.
  symmetry. apply list_to_map_proper.
  - rewrite <- list_fmap_compose.
    replace (fst ∘ prod_map id f) with (@fst string Value) by done.
    apply NoDup_fst_map_to_list.
  - apply fmap_Permutation. rewrite <- Hperm. apply Permutation_rev.
Qed.

Lemma range_Forall (range : RangeOrder) (m : gmap string Value)
    (P : string → Value → Prop) :
  LegalOrder range → map_Forall P m → Forall (λ kv, P kv.1 kv.2) (range m).
Proof.
  intros Hlegal Hm. apply Forall_forall. intros [k v] Hin.
  rewrite (Hlegal m) in Hin. apply elem_of_map_to_list in Hin.
  by apply Hm.
Qed.

Lemma fold_headSegments (ctx : PropagationContext) (st : scanState) :
  grandParent st = "" →
  fold_left scanSegment (headSegments ctx) st =
    mkScanState (set_TraceID (TraceID ctx) (prop st))
      (ParentID ctx) (GrandParentID ctx).
Proof.
  intros Hg. unfold headSegments.
  destruct (String.eqb_spec (GrandParentID ctx) "") as [->|Hne]; cbn [fold_left].
  - rewrite scanSegment_Root, scanSegment_Parent. simpl. by rewrite Hg.
  - by rewrite scanSegment_Root, scanSegment_Parent, scanSegment_GrandParent.
Qed.

(** The segments of the header of a context. *)
Lemma Marshal_segments_NoSemicolon
    (range : RangeOrder) (ctx : PropagationContext) :
  LegalOrder range → cleanContext ctx →
  Forall NoSemicolon
    (headSegments ctx ++ (contextSegment <$> range (TraceContext ctx))).
Proof.
  intros Hlegal (Ht & Hp & Hg & Hm). apply Forall_app. split.
  - by apply headSegments_NoSemicolon.
  - apply Forall_fmap. eapply Forall_impl.
    + by apply (range_Forall range _ _ Hlegal Hm).
    + intros [k v] [(Hk & _) Hv]. by apply contextSegment_NoSemicolon.
Qed.

(** The loop over the segments of a clean context, from a state without
    custom fields and without a grandparent: the ids go to [TraceID],
    [parent] and [grandParent], the fields to [TraceContext]. *)
Lemma fold_Marshal_segments
    (range : RangeOrder) (ctx : PropagationContext) (st : scanState) :
  LegalOrder range → cleanContext ctx →
  TraceContext (prop st) = ∅ → grandParent st = "" →
  fold_left scanSegment
    (headSegments ctx ++ (contextSegment <$> range (TraceContext ctx))) st =
    mkScanState
      (mkPropagationContext (TraceID ctx) (ParentID (prop st))
         (GrandParentID (prop st)) (stringified <$> TraceContext ctx))
      (ParentID ctx) (GrandParentID ctx).
Proof.
  intros Hlegal (Ht & Hp & Hg & Hm) Hc Hgp.
  rewrite fold_left_app, fold_headSegments by done.
  rewrite fold_contextSegments.
  - cbn [prop parent grandParent set_TraceID TraceID ParentID GrandParentID
         TraceContext].
    rewrite Hc. by rewrite (fold_left_insert_entries stringified _ _ (Hlegal _)).
  - eapply Forall_impl; [by apply (range_Forall range _ _ Hlegal Hm)|].
    by intros [k v] [Hk _].
Qed.

Lemma scan_Marshal (range : RangeOrder) (ctx : PropagationContext) :
  LegalOrder range → cleanContext ctx →
  scanSegments (MarshalAmazonTraceContext range (Some ctx)) =
    mkScanState
      (mkPropagationContext (TraceID ctx) "" ""
         (stringified <$> TraceContext ctx))
      (ParentID ctx) (GrandParentID ctx).
Proof.
  intros Hlegal Hclean. rewrite Marshal_Join by done.
  rewrite scanSegments_Join by by apply Marshal_segments_NoSemicolon.
  by rewrite fold_Marshal_segments.
Qed.

Lemma reconcile_parent (t p g : string) (c : gmap string Value) :
  p ≠ "" →
  reconcile (mkScanState (mkPropagationContext t "" "" c) p g) =
    mkPropagationContext t p g c.
Proof.
  intros Hp%eqb_empty_false. unfold reconcile.
  cbn [prop parent grandParent ParentID String.eqb andb]. rewrite Hp.
  by destruct (String.eqb_spec g "") as [->|Hg].
Qed.

Lemma Unmarshal_Marshal_clean (range : RangeOrder) (ctx : PropagationContext) :
  LegalOrder range → cleanContext ctx →
  TraceID ctx ≠ "" → ParentID ctx ≠ "" →
  UnmarshalAmazonTraceContext (MarshalAmazonTraceContext range (Some ctx)) =
    (Some (mkPropagationContext (TraceID ctx) (ParentID ctx)
             (GrandParentID ctx) (stringified <$> TraceContext ctx)), None).
Proof.
  intros Hlegal Hclean Ht Hp.
  unfold UnmarshalAmazonTraceContext. rewrite scan_Marshal by done.
  rewrite reconcile_parent by done. rewrite rootFallback_id by done.
  set (p := mkPropagationContext _ _ _ _).
  assert (IsValid p = true) as ->; [|done]. by apply IsValid_true.
Qed.

End ContextRoundTrip.

Section StoredFacts.
Import strings.

(** A segment [key=val] without [;] has neither in its key nor in its
    value. *)
Lemma key_val_NoSemicolon (key val : string) :
  NoSemicolon (key +:+ "=" +:+ val) → NoSemicolon key ∧ NoSemicolon val.
Proof.
  unfold NoSemicolon. rewrite !ContainsByte_app, !orb_false_iff.
  by intros (Hk & _ & Hv).
Qed.

Lemma scanSegment_storedStrings (st : scanState) (segment : string) :
  NoSemicolon segment → storedStrings (TraceContext (prop st)) →
  storedStrings (TraceContext (prop (scanSegment st segment))).
Proof.
  intros Hseg Hst.
  destruct (SplitN_2_cases segment "=") as [[Hne _]|(k & v & -> & Hk & _)].
  - by rewrite scanSegment_skip.
  - rewrite <- key_val_segment in *.
    apply key_val_NoSemicolon in Hseg as [Hks Hvs].
    destruct (recognized (ToLower k)) eqn:Hrec.
    + rewrite scanSegment_recognized by done. cbv zeta.
      by repeat case_match.
    + rewrite scanSegment_other by done. simpl.
      apply map_Forall_insert_2; [|done]. split; [done|]. by exists v.
Qed.

Lemma scanSegments_storedStrings (header : string) :
  storedStrings (TraceContext (prop (scanSegments header))).
Proof.
  unfold scanSegments.
  assert (storedStrings (TraceContext (prop initState))) as Hinit
    by apply map_Forall_empty.
  revert Hinit. generalize initState.
  induction (Split_Forall header ";") as [|x xs Hx Hxs IH]; intros st Hst;
    simpl; [done|].
  apply IH. by apply scanSegment_storedStrings.
Qed.

(** Read back, a stored string is the string. *)
Lemma stringified_storedStrings (m : gmap string Value) :
  storedStrings m → stringified <$> m = m.
Proof.
  intros Hm. apply map_eq. intros k. rewrite lookup_fmap.
  destruct (m !! k) as [v|] eqn:Hk; [|done]. simpl.
  destruct (Hm k v Hk) as (_ & s & -> & _). done.
Qed.

Lemma storedStrings_clean (m : gmap string Value) :
  storedStrings m →
  map_Forall (λ k v, customKey k ∧ NoSemicolon (fmt.Sprint_v v)) m.
Proof.
  intros Hm k v Hk. destruct (Hm k v Hk) as (Hkey & s & -> & Hs). done.
Qed.

(** What holds of every context the parser returns. *)
Lemma Unmarshal_result (header : string) (ctx : PropagationContext) :
  UnmarshalAmazonTraceContext header = (Some ctx, None) →
  ctx = finalContext header ∧ IsValid ctx = true.
Proof.
  intros H. pose proof (Unmarshal_context header) as Hctx.
  rewrite H in Hctx. simpl in Hctx.
  destruct (IsValid (finalContext header)) eqn:Hv; [|done].
  by injection Hctx as ->.
Qed.

Lemma Unmarshal_storedStrings (header : string) (ctx : PropagationContext) :
  UnmarshalAmazonTraceContext header = (Some ctx, None) →
  storedStrings (TraceContext ctx).
Proof.
  intros [-> _]%Unmarshal_result. rewrite finalContext_TraceContext.
  apply scanSegments_storedStrings.
Qed.

Lemma Unmarshal_clean (header : string) (ctx : PropagationContext) :
  UnmarshalAmazonTraceContext header = (Some ctx, None) → cleanContext ctx.
Proof.
  intros H. destruct (Unmarshal_NoSemicolon _ _ H) as (Ht & Hp & Hg).
  unfold cleanContext. split_and!; try done.
  by apply storedStrings_clean, (Unmarshal_storedStrings header).
Qed.

Lemma customFields_clean : cleanContext customFields.
Proof.
  unfold cleanContext. split_and!; try done. unfold customFields. simpl.
  apply map_Forall_insert_2; [by repeat split|].
  apply map_Forall_singleton. by repeat split.
Qed.

End StoredFacts.

(** X3.  Round trip with custom fields.  For every legal iteration order
    and every valid context in which no id and no formatted value holds a
    [;] and every key of [TraceContext] is a custom key (no [;], no [=],
    not a spelling of [self], [root], [parent] or [grandparent]), parsing
    the serialized context succeeds and returns the ids of the context and
    its fields, each value as the string [%v] formats it to: numbers and
    booleans come back as strings. *)
Theorem roundtrip_context (range : RangeOrder) (ctx : PropagationContext) :
  LegalOrder range → cleanContext ctx →
  TraceID ctx ≠ "" → ParentID ctx ≠ "" →
  UnmarshalAmazonTraceContext (MarshalAmazonTraceContext range (Some ctx)) =
    (Some (mkPropagationContext (TraceID ctx) (ParentID ctx)
             (GrandParentID ctx)
             ((λ v, VString (fmt.Sprint_v v)) <$> TraceContext ctx)), None).
Proof. apply Unmarshal_Marshal_clean. Qed.

Lemma roundtrip_context_witness :
  UnmarshalAmazonTraceContext
    (MarshalAmazonTraceContext map_to_list (Some customFields)) =
    (Some (mkPropagationContext "1-abc" "2-def" "3-ghi"
             (<["foo" := VString "32"]> {[ "baz" := VString "true" ]})), None).
Proof.
  exact (roundtrip_context map_to_list customFields map_to_list_LegalOrder
           customFields_clean ltac:(discriminate) ltac:(discriminate)).
Defined.

(** X4.  What the parser returns is a fixed point of serializing and
    parsing: for every header the parser accepts and every legal iteration
    order, the serialized result is parsed back into the very same
    context. *)
Theorem reparse_fixed_point
    (range : RangeOrder) (header : string) (ctx : PropagationContext) :
  LegalOrder range →
  UnmarshalAmazonTraceContext header = (Some ctx, None) →
  UnmarshalAmazonTraceContext (MarshalAmazonTraceContext range (Some ctx)) =
    (Some ctx, None).
Proof.
  intros Hlegal H.
  destruct (Unmarshal_result _ _ H) as [_ [Ht Hp]%IsValid_true].
  rewrite Unmarshal_Marshal_clean by eauto using Unmarshal_clean.
  rewrite stringified_storedStrings by by apply (Unmarshal_storedStrings header).
  by destruct ctx.
Qed.

Lemma reparse_fixed_point_witness :
  UnmarshalAmazonTraceContext
    (MarshalAmazonTraceContext map_to_list
       (Some (mkPropagationContext "1-abc" "2-def" "3-ghi"
                {[ "foo" := VString "32" ]}))) =
    (Some (mkPropagationContext "1-abc" "2-def" "3-ghi"
             {[ "foo" := VString "32" ]}), None).
Proof.
  exact (reparse_fixed_point map_to_list
           "self=2-def;ROOT=1-abc;junk;Parent=3-ghi;foo=32" _
           map_to_list_LegalOrder eq_refl).
Defined.

(** X5.  The parser stores strings only, under custom keys only: for every
    header it accepts, every entry of the returned [TraceContext] is a
    string value without [;], under a key without [;] and [=] that is no
    spelling of [self], [root], [parent] or [grandparent]. *)
Theorem parsed_context_strings
    (header : string) (ctx : PropagationContext) (k : string) (v : Value) :
  UnmarshalAmazonTraceContext header = (Some ctx, None) →
  TraceContext ctx !! k = Some v →
  (∃ s, v = VString s ∧ NoSemicolon s) ∧
  NoSemicolon k ∧ NoEquals k ∧ recognized (strings.ToLower k) = false.
Proof.
  intros H Hk. destruct (Unmarshal_storedStrings _ _ H k v Hk) as [Hkey Hv].
  done.
Qed.

Lemma parsed_context_strings_witness :
  (∃ s, VString "true" = VString s ∧ NoSemicolon s) ∧
  NoSemicolon "baz" ∧ NoEquals "baz" ∧
  recognized (strings.ToLower "baz") = false.
Proof.
  exact (parsed_context_strings "Root=1-abc;Self=2-def;foo=32;baz=true"
           _ "baz" (VString "true") eq_refl eq_refl).
Defined.

(** * The order of the segments *)

Section OrderFacts.
Import strings.

(** Two segments that assign different variables can be swapped. *)
Lemma scanSegment_commute (st : scanState) (a b : string) :
  (∀ s, segmentSlot a = Some s → segmentSlot b ≠ Some s) →
  scanSegment (scanSegment st b) a = scanSegment (scanSegment st a) b.
Proof.
  unfold segmentSlot, scanSegment.
  destruct (SplitN a "=" 2) as [|ka [|va ra]];
    destruct (SplitN b "=" 2) as [|kb [|vb rb]]; try done.
  destruct st as [[t p g c] par gpar]. cbv zeta.
  destruct (String.eqb (ToLower ka) "self");
    [|destruct (String.eqb (ToLower ka) "root");
      [|destruct (String.eqb (ToLower ka) "parent");
        [|destruct (String.eqb (ToLower ka) "grandparent")]]];
  (destruct (String.eqb (ToLower kb) "self");
    [|destruct (String.eqb (ToLower kb) "root");
      [|destruct (String.eqb (ToLower kb) "parent");
        [|destruct (String.eqb (ToLower kb) "grandparent")]]]);
  intros H; simpl; try done; try (by destruct (H _ eq_refl)).
  unfold set_TraceContext. simpl. f_equal. f_equal.
  apply insert_insert_ne. intros ->. by destruct (H _ eq_refl).
Qed.

Lemma omap_segmentSlot_cons (x : string) (l : list string) :
  omap segmentSlot (x :: l) =
    match segmentSlot x with
    | Some s => s :: omap segmentSlot l
    | None => omap segmentSlot l
    end.
Proof. done. Qed.

(** The loop over segments that assign pairwise different variables
    leaves the same state in whatever order it meets them. *)
Lemma fold_scan_Permutation (l1 l2 : list string) :
  l1 ≡ₚ l2 → NoDup (omap segmentSlot l1) →
  ∀ st, fold_left scanSegment l1 st = fold_left scanSegment l2 st.
Proof.
  induction 1 as [|x l l' Hperm IH|x y l|l l' l'' Hperm1 IH1 Hperm2 IH2];
    intros Hnd st.
  - done.
  - simpl. apply IH. rewrite omap_segmentSlot_cons in Hnd.
    destruct (segmentSlot x); [by apply NoDup_cons in Hnd as [_ ?]|done].
  - simpl. f_equal. apply scanSegment_commute. intros s Hx Hy.
    rewrite !omap_segmentSlot_cons, Hx, Hy in Hnd.
    apply NoDup_cons in Hnd as [Hnin _]. apply Hnin. by left.
  - rewrite IH1 by done. apply IH2. by rewrite <- Hperm1.
Qed.

End OrderFacts.

(** X6.  The order of the segments does not matter as long as no variable
    is assigned twice.  For every two lists of segments (without [;]) that
    are permutations of each other and among which no two segments assign
    the same variable (the same recognised key in any spelling, or the
    same custom key), the headers joined from them are scanned into the
    same state and parsed into the same context or failure. *)
Theorem segment_order_irrelevant (segments segments' : list string) :
  Forall NoSemicolon segments → segments ≡ₚ segments' →
  NoDup (omap segmentSlot segments) →
  scanSegments (strings.Join segments ";") =
    scanSegments (strings.Join segments' ";") ∧
  (UnmarshalAmazonTraceContext (strings.Join segments ";")).1 =
    (UnmarshalAmazonTraceContext (strings.Join segments' ";")).1.
Proof.
  intros Hall Hperm Hnd.
  assert (scanSegments (strings.Join segments ";") =
          scanSegments (strings.Join segments' ";")) as Hscan.
  { rewrite !scanSegments_Join by by rewrite <- ?Hperm.
    by apply fold_scan_Permutation. }
  split; [done|]. by apply Unmarshal_same_scan.
Qed.

Lemma segment_order_irrelevant_witness :
  scanSegments "Root=1-abc;Self=2-def;Parent=3-ghi;foo=32" =
    scanSegments "foo=32;Parent=3-ghi;Root=1-abc;Self=2-def" ∧
  (UnmarshalAmazonTraceContext "Root=1-abc;Self=2-def;Parent=3-ghi;foo=32").1 =
    (UnmarshalAmazonTraceContext "foo=32;Parent=3-ghi;Root=1-abc;Self=2-def").1.
Proof.
  apply (segment_order_irrelevant
           ["Root=1-abc"; "Self=2-def"; "Parent=3-ghi"; "foo=32"]
           ["foo=32"; "Parent=3-ghi"; "Root=1-abc"; "Self=2-def"]).
  - by repeat constructor.
  - apply (bool_decide_unpack _). vm_compute. exact I.
  - apply (bool_decide_unpack _). vm_compute. exact I.
Defined.

(** * Repeated keys *)

Section RepeatFacts.
Import strings.

(** A segment whose key is no spelling of a recognised key leaves the
    variable of that key as it is. *)
Lemma scanSegment_fieldOf_other (st : scanState) (segment lower : string) :
  recognized lower = true →
  ToLower <$> segmentKey segment ≠ Some lower →
  fieldOf lower (scanSegment st segment) = fieldOf lower st.
Proof.
  unfold segmentKey, scanSegment. simpl.
  destruct (Cut segment "=") as [[key val]|]; simpl; [|done].
  intros Hrec Hne. assert (ToLower key ≠ lower) as Hlow by congruence.
  unfold fieldOf, recognized in *.
  destruct (String.eqb_spec (ToLower key) "self") as [E|E];
    [|destruct (String.eqb_spec (ToLower key) "root") as [E1|E1];
      [|destruct (String.eqb_spec (ToLower key) "parent") as [E2|E2];
        [|destruct (String.eqb_spec (ToLower key) "grandparent") as [E3|E3]]]];
    destruct (String.eqb_spec lower "self");
    destruct (String.eqb_spec lower "root");
    destruct (String.eqb_spec lower "parent");
    destruct (String.eqb_spec lower "grandparent");
    simpl in *; congruence.
Qed.

Lemma fold_scan_fieldOf_other (segments : list string) (st : scanState)
    (lower : string) :
  recognized lower = true →
  Forall (λ segment, ToLower <$> segmentKey segment ≠ Some lower) segments →
  fieldOf lower (fold_left scanSegment segments st) = fieldOf lower st.
Proof.
  intros Hrec Hall. revert st.
  induction Hall as [|x xs Hx Hxs IH]; intros st; simpl; [done|].
  by rewrite IH, scanSegment_fieldOf_other.
Qed.

Lemma fieldOf_recognized (st : scanState) (key val : string) :
  recognized (ToLower key) = true →
  fieldOf (ToLower key) (scanSegment st (key +:+ "=" +:+ val)) = val.
Proof.
  intros Hrec. rewrite scanSegment_recognized by done.
  unfold fieldOf, recognized in *. cbv zeta.
  destruct (String.eqb (ToLower key) "self"); [done|].
  destruct (String.eqb (ToLower key) "root"); [done|].
  destruct (String.eqb (ToLower key) "parent"); done.
Qed.

Lemma fieldOf_last_recognized (before after : list string) (key val : string) :
  Forall NoSemicolon before → Forall NoSemicolon after → NoSemicolon val →
  recognized (ToLower key) = true →
  Forall (λ segment, ToLower <$> segmentKey segment ≠ Some (ToLower key))
    after →
  fieldOf (ToLower key)
    (scanSegments (Join (before ++ (key +:+ "=" +:+ val) :: after) ";")) = val.
Proof.
  intros Hb Ha Hv Hrec Hafter.
  rewrite scanSegments_middle; [|done| |done].
  - rewrite fold_scan_fieldOf_other by done. by apply fieldOf_recognized.
  - apply recognized_NoSemicolon in Hrec. unfold NoSemicolon in *.
    by rewrite !ContainsByte_app, Hrec, Hv.
Qed.

End RepeatFacts.

(** X7.  Of several segments with the same recognised key the last one
    wins.  For every header made of segments (without [;]) in which a
    segment [key=val] of a recognised key is followed by no segment whose
    key is a spelling of the same key, the loop leaves [val] in the
    variable of that key ([ParentID] for [self], [TraceID] for [root],
    [parent], [grandParent]), whatever the segments before assigned. *)
Theorem last_recognized_wins (before after : list string) (key val : string) :
  Forall NoSemicolon before → Forall NoSemicolon after → NoSemicolon val →
  recognized (strings.ToLower key) = true →
  Forall (λ segment,
            strings.ToLower <$> segmentKey segment ≠ Some (strings.ToLower key))
    after →
  fieldOf (strings.ToLower key)
    (scanSegments (strings.Join (before ++ (key +:+ "=" +:+ val) :: after) ";"))
    = val.
Proof. apply fieldOf_last_recognized. Qed.

Lemma last_recognized_wins_witness :
  fieldOf "root" (scanSegments "Root=1-abc;Self=2-def;ROOT=9-xyz;foo=32") =
    "9-xyz".
Proof.
  apply (last_recognized_wins ["Root=1-abc"; "Self=2-def"] ["foo=32"]
           "ROOT" "9-xyz");
    solve [ by repeat constructor | reflexivity ].
Defined.

(** * Through a load balancer *)

Section SelfFacts.
Import strings.

Lemma scanSegment_self (st : scanState) (key val : string) :
  ToLower key = "self" →
  scanSegment st (key +:+ "=" +:+ val) =
    mkScanState (set_ParentID val (prop st)) (parent st) (grandParent st).
Proof.
  intros H. rewrite scanSegment_recognized by by rewrite H. by rewrite H.
Qed.

(** The switch and the fallback on a state with a [self] value. *)
Lemma final_with_self (t s p g : string) (c : gmap string Value) :
  s ≠ "" →
  rootFallback (reconcile (mkScanState (mkPropagationContext t s "" c) p g)) =
    mkPropagationContext t s p c.
Proof.
  intros Hs. assert (String.eqb s "" = false) as Hs' by by apply eqb_empty_false.
  unfold reconcile. cbn [prop parent grandParent ParentID]. rewrite Hs'.
  cbn [andb negb].
  destruct (String.eqb_spec p "") as [->|Hp]; cbn [negb];
    by rewrite rootFallback_id.
Qed.

Lemma Unmarshal_with_self (header : string) (t s p g : string)
    (c : gmap string Value) :
  t ≠ "" → s ≠ "" →
  scanSegments header = mkScanState (mkPropagationContext t s "" c) p g →
  UnmarshalAmazonTraceContext header =
    (Some (mkPropagationContext t s p c), None).
Proof.
  intros Ht Hs Hscan. unfold UnmarshalAmazonTraceContext.
  rewrite Hscan, final_with_self by done.
  set (q := mkPropagationContext _ _ _ _).
  assert (IsValid q = true) as ->; [|done]. by apply IsValid_true.
Qed.

Lemma Marshal_segments_not_nil (range : RangeOrder) (ctx : PropagationContext) :
  headSegments ctx ++ (contextSegment <$> range (TraceContext ctx)) ≠ [].
Proof. done. Qed.

Lemma self_NoSemicolon (key val : string) :
  ToLower key = "self" → NoSemicolon val → NoSemicolon (key +:+ "=" +:+ val).
Proof.
  intros Hk Hv. assert (NoSemicolon key) as Hkey.
  { apply recognized_NoSemicolon. by rewrite Hk. }
  unfold NoSemicolon in *. by rewrite !ContainsByte_app, Hkey, Hv.
Qed.

(** The header of a clean context with one more segment, of a key spelled
    like [self], behind or in front of it. *)
Lemma scan_Marshal_self_behind
    (range : RangeOrder) (ctx : PropagationContext) (key val : string) :
  LegalOrder range → cleanContext ctx →
  ToLower key = "self" → NoSemicolon val →
  scanSegments
    (MarshalAmazonTraceContext range (Some ctx) +:+ ";" +:+ key +:+ "=" +:+ val) =
    mkScanState
      (mkPropagationContext (TraceID ctx) val ""
         (stringified <$> TraceContext ctx))
      (ParentID ctx) (GrandParentID ctx).
Proof.
  intros Hlegal Hclean Hk Hv. rewrite Marshal_Join by done.
  change (key +:+ "=" +:+ val) with (Join [key +:+ "=" +:+ val] ";").
  rewrite <- Join_app by done.
  rewrite scanSegments_Join.
  - rewrite fold_left_app, fold_Marshal_segments by done.
    cbn [fold_left]. by rewrite scanSegment_self.
  - apply Forall_app. split; [by apply Marshal_segments_NoSemicolon|].
    repeat constructor. by apply self_NoSemicolon.
Qed.

Lemma scan_Marshal_self_front
    (range : RangeOrder) (ctx : PropagationContext) (key val : string) :
  LegalOrder range → cleanContext ctx →
  ToLower key = "self" → NoSemicolon val →
  scanSegments
    ((key +:+ "=" +:+ val) +:+ ";" +:+ MarshalAmazonTraceContext range (Some ctx)) =
    mkScanState
      (mkPropagationContext (TraceID ctx) val ""
         (stringified <$> TraceContext ctx))
      (ParentID ctx) (GrandParentID ctx).
Proof.
  intros Hlegal Hclean Hk Hv. rewrite Marshal_Join by done.
  change (key +:+ "=" +:+ val) with (Join [key +:+ "=" +:+ val] ";") at 1.
  rewrite <- Join_app by done.
  rewrite scanSegments_Join.
  - rewrite fold_left_app. cbn [fold_left]. rewrite scanSegment_self by done.
    by rewrite fold_Marshal_segments.
  - apply Forall_app. split; [|by apply Marshal_segments_NoSemicolon].
    repeat constructor. by apply self_NoSemicolon.
Qed.

End SelfFacts.

(** X8.  A serialized context that went through a load balancer.  The
    balancer inserts a [Self] segment with an id of its own into the
    header.  For every legal iteration order, every clean context with a
    trace id and every non-empty id [self] without [;], the header with
    [Self=self] put behind it or in front of it is parsed with success into
    the trace id and the fields of the context (values as strings),
    [ParentID = self] and, as [GrandParentID], the [ParentID] of the sender:
    the [GrandParentID] the sender wrote is dropped. *)
Theorem load_balancer_self
    (range : RangeOrder) (ctx : PropagationContext) (self : string) :
  LegalOrder range → cleanContext ctx → TraceID ctx ≠ "" →
  self ≠ "" → NoSemicolon self →
  let header := MarshalAmazonTraceContext range (Some ctx) in
  let received :=
    mkPropagationContext (TraceID ctx) self (ParentID ctx)
      ((λ v, VString (fmt.Sprint_v v)) <$> TraceContext ctx) in
  UnmarshalAmazonTraceContext (header +:+ ";Self=" +:+ self) =
    (Some received, None) ∧
  UnmarshalAmazonTraceContext ("Self=" +:+ self +:+ ";" +:+ header) =
    (Some received, None).
Proof.
  intros Hlegal Hclean Ht Hs Hsemi header received. split.
  - apply (Unmarshal_with_self _ _ _ _ (GrandParentID ctx)); try done.
    by apply (scan_Marshal_self_behind range ctx "Self" self).
  - apply (Unmarshal_with_self _ _ _ _ (GrandParentID ctx)); try done.
    by apply (scan_Marshal_self_front range ctx "Self" self).
Qed.

Lemma load_balancer_self_witness :
  let received :=
    mkPropagationContext "1-abc" "5-lb" "2-def"
      (<["foo" := VString "32"]> {[ "baz" := VString "true" ]}) in
  UnmarshalAmazonTraceContext
    (MarshalAmazonTraceContext map_to_list (Some customFields)
       +:+ ";Self=" +:+ "5-lb") = (Some received, None) ∧
  UnmarshalAmazonTraceContext
    ("Self=" +:+ "5-lb" +:+ ";" +:+
       MarshalAmazonTraceContext map_to_list (Some customFields)) =
    (Some received, None).
Proof.
  exact (load_balancer_self map_to_list customFields "5-lb"
           map_to_list_LegalOrder customFields_clean
           ltac:(discriminate) ltac:(discriminate) eq_refl).
Defined.

(** X9.  A custom field whose key is a spelling of [self] is read as the
    [Self] of a load balancer.  For every legal iteration order and every
    context with a trace id, ids without [;] and the single field
    [key := v] with [key] lower-casing to [self] and [v] formatted to a
    non-empty text without [;], the serialized context is parsed into
    [ParentID] = that text and [GrandParentID] = the [ParentID] of the
    context, with no custom field. *)
Theorem custom_self_overrides
    (range : RangeOrder) (ctx : PropagationContext) (key : string) (v : Value) :
  LegalOrder range →
  TraceContext ctx = {[ key := v ]} → strings.ToLower key = "self" →
  NoSemicolon (TraceID ctx) → NoSemicolon (ParentID ctx) →
  NoSemicolon (GrandParentID ctx) → NoSemicolon (fmt.Sprint_v v) →
  TraceID ctx ≠ "" → fmt.Sprint_v v ≠ "" →
  UnmarshalAmazonTraceContext (MarshalAmazonTraceContext range (Some ctx)) =
    (Some (mkPropagationContext (TraceID ctx) (fmt.Sprint_v v)
             (ParentID ctx) ∅), None).
Proof.
  intros Hlegal Hc Hk Ht Hp Hg Hv Hne Hvne.
  assert (range (TraceContext ctx) = [(key, v)]) as Hrange.
  { apply Permutation_singleton_r. rewrite (Hlegal _), Hc.
    by rewrite map_to_list_singleton. }
  rewrite Marshal_Join, Hrange by done.
  apply (Unmarshal_with_self _ _ _ _ (GrandParentID ctx)); try done.
  rewrite scanSegments_Join.
  - rewrite fold_left_app, fold_headSegments by done.
    cbn [fmap list_fmap fold_left]. unfold contextSegment. cbn [fst snd].
    by rewrite scanSegment_self.
  - apply Forall_app. split; [by apply headSegments_NoSemicolon|].
    repeat constructor. by apply self_NoSemicolon.
Qed.

Lemma custom_self_overrides_witness :
  UnmarshalAmazonTraceContext
    (MarshalAmazonTraceContext map_to_list
       (Some (mkPropagationContext "1-abc" "2-def" "" {[ "SELF" := VInt 7 ]}))) =
    (Some (mkPropagationContext "1-abc" "7" "2-def" ∅), None).
Proof.
  exact (custom_self_overrides map_to_list
           (mkPropagationContext "1-abc" "2-def" "" {[ "SELF" := VInt 7 ]})
           "SELF" (VInt 7) map_to_list_LegalOrder eq_refl eq_refl
           eq_refl eq_refl eq_refl eq_refl
           ltac:(discriminate) ltac:(discriminate)).
Defined.

(** X10.  Headers tell clean contexts apart.  For every two legal iteration
    orders and every two clean contexts, equal headers mean equal
    [TraceID], [ParentID] and [GrandParentID] and the same custom fields up
    to the formatting of the values; when all the values are strings, the
    contexts are equal. *)
Theorem marshal_injective
    (range1 range2 : RangeOrder) (ctx1 ctx2 : PropagationContext) :
  LegalOrder range1 → LegalOrder range2 →
  cleanContext ctx1 → cleanContext ctx2 →
  MarshalAmazonTraceContext range1 (Some ctx1) =
    MarshalAmazonTraceContext range2 (Some ctx2) →
  TraceID ctx1 = TraceID ctx2 ∧ ParentID ctx1 = ParentID ctx2 ∧
  GrandParentID ctx1 = GrandParentID ctx2 ∧
  (λ v, VString (fmt.Sprint_v v)) <$> TraceContext ctx1 =
    (λ v, VString (fmt.Sprint_v v)) <$> TraceContext ctx2 ∧
  ((∀ k v, TraceContext ctx1 !! k = Some v → ∃ s, v = VString s) →
   (∀ k v, TraceContext ctx2 !! k = Some v → ∃ s, v = VString s) →
   ctx1 = ctx2).
Proof.
  intros Hl1 Hl2 Hc1 Hc2 Heq. apply (f_equal scanSegments) in Heq.
  rewrite !scan_Marshal in Heq by done.
  injection Heq as Ht Hm Hp Hg. split_and!; try done.
  intros Hs1 Hs2.
  assert (∀ m : gmap string Value,
            (∀ k v, m !! k = Some v → ∃ s, v = VString s) →
            stringified <$> m = m) as Hid.
  { intros m Hm'. apply map_eq. intros k. rewrite lookup_fmap.
    destruct (m !! k) as [v|] eqn:Hk; [|done].
    by destruct (Hm' k v Hk) as [s ->]. }
  rewrite !Hid in Hm by done.
  destruct ctx1, ctx2. simpl in *. by subst.
Qed.

Lemma marshal_injective_witness :
  let ctx1 := mkPropagationContext "1-abc" "2-def" "" {[ "n" := VInt 32 ]} in
  let ctx2 := mkPropagationContext "1-abc" "2-def" "" {[ "n" := VString "32" ]} in
  TraceID ctx1 = TraceID ctx2 ∧ ParentID ctx1 = ParentID ctx2 ∧
  GrandParentID ctx1 = GrandParentID ctx2 ∧
  (λ v, VString (fmt.Sprint_v v)) <$> TraceContext ctx1 =
    (λ v, VString (fmt.Sprint_v v)) <$> TraceContext ctx2 ∧
  ((∀ k v, TraceContext ctx1 !! k = Some v → ∃ s, v = VString s) →
   (∀ k v, TraceContext ctx2 !! k = Some v → ∃ s, v = VString s) →
   ctx1 = ctx2).
Proof.
  intros ctx1 ctx2.
  assert (∀ v, NoSemicolon (fmt.Sprint_v v) →
               cleanContext (mkPropagationContext "1-abc" "2-def" "" {[ "n" := v ]}))
    as Hclean.
  { intros v Hv. unfold cleanContext. simpl. rewrite map_Forall_singleton.
    by split_and!. }
  exact (marshal_injective map_to_list map_to_list ctx1 ctx2
           map_to_list_LegalOrder map_to_list_LegalOrder
           (Hclean (VInt 32) eq_refl) (Hclean (VString "32") eq_refl) eq_refl).
Defined.

(** * Contexts and headers without a root *)

Section RootFacts.
Import strings.

Lemma finalContext_TraceID (header : string) :
  TraceID (finalContext header) = TraceID (prop (scanSegments header)).
Proof.
  unfold finalContext. by rewrite rootFallback_TraceID, reconcile_TraceID.
Qed.

(** The parser fails iff the loop leaves no trace id. *)
Lemma Unmarshal_no_TraceID (header : string) :
  TraceID (prop (scanSegments header)) = "" →
  UnmarshalAmazonTraceContext header =
    (None, Some (PropagationError (errorPrefix +:+ header) None)).
Proof.
  intros Ht. apply Unmarshal_invalid. unfold finalContext.
  apply rootFallback_invalid. by rewrite reconcile_TraceID.
Qed.

Lemma Unmarshal_TraceID (header : string) :
  TraceID (prop (scanSegments header)) ≠ "" →
  UnmarshalAmazonTraceContext header = (Some (finalContext header), None).
Proof.
  intros Ht. apply Unmarshal_valid.
  destruct (IsValid (finalContext header)) eqn:Hv; [done|].
  unfold finalContext in Hv. apply rootFallback_invalid in Hv.
  by rewrite reconcile_TraceID in Hv.
Qed.

Lemma fieldOf_root (st : scanState) : fieldOf "root" st = TraceID (prop st).
Proof. done. Qed.

(** The switch and the fallback on a state without [self] and [parent]. *)
Lemma final_root_only (t g : string) (c : gmap string Value) :
  t ≠ "" →
  rootFallback (reconcile (mkScanState (mkPropagationContext t "" "" c) "" g)) =
    mkPropagationContext t t "" c.
Proof. intros Ht. unfold reconcile. simpl. by rewrite rootFallback_root. Qed.

End RootFacts.

(** X11.  The serializer does not check the context it is given; the
    parser decides.  For every legal iteration order and every clean
    context: with an empty [TraceID] the serialized context is rejected by
    the parser, with the error that quotes the header; with a [TraceID] and
    an empty [ParentID] it is accepted, and comes back with [ParentID] set
    to the [TraceID] and without [GrandParentID], whatever that was. *)
Theorem marshal_invalid_context (range : RangeOrder) (ctx : PropagationContext) :
  LegalOrder range → cleanContext ctx →
  let header := MarshalAmazonTraceContext range (Some ctx) in
  (TraceID ctx = "" →
   UnmarshalAmazonTraceContext header =
     (None, Some (PropagationError (errorPrefix +:+ header) None))) ∧
  (TraceID ctx ≠ "" → ParentID ctx = "" →
   UnmarshalAmazonTraceContext header =
     (Some (mkPropagationContext (TraceID ctx) (TraceID ctx) ""
              ((λ v, VString (fmt.Sprint_v v)) <$> TraceContext ctx)), None)).
Proof.
  intros Hlegal Hclean header. subst header. split.
  - intros Ht. apply Unmarshal_no_TraceID. by rewrite scan_Marshal.
  - intros Ht Hp. rewrite Unmarshal_TraceID by by rewrite scan_Marshal.
    unfold finalContext. rewrite scan_Marshal, Hp by done.
    by rewrite final_root_only.
Qed.

Lemma marshal_invalid_context_witness :
  UnmarshalAmazonTraceContext
    (MarshalAmazonTraceContext map_to_list
       (Some (mkPropagationContext "" "2-def" "3-ghi" ∅))) =
    (None, Some (PropagationError
                   (errorPrefix +:+ "Root=;Parent=2-def;GrandParent=3-ghi") None)) ∧
  UnmarshalAmazonTraceContext
    (MarshalAmazonTraceContext map_to_list
       (Some (mkPropagationContext "1-abc" "" "3-ghi" ∅))) =
    (Some (mkPropagationContext "1-abc" "1-abc" "" ∅), None).
Proof.
  assert (∀ t p, NoSemicolon t → NoSemicolon p →
                 cleanContext (mkPropagationContext t p "3-ghi" ∅)) as Hclean.
  { intros t p Ht Hp. unfold cleanContext. simpl. by split_and!. }
  split.
  - exact (proj1 (marshal_invalid_context map_to_list
                    (mkPropagationContext "" "2-def" "3-ghi" ∅)
                    map_to_list_LegalOrder (Hclean "" "2-def" eq_refl eq_refl))
             eq_refl).
  - exact (proj2 (marshal_invalid_context map_to_list
                    (mkPropagationContext "1-abc" "" "3-ghi" ∅)
                    map_to_list_LegalOrder (Hclean "1-abc" "" eq_refl eq_refl))
             ltac:(discriminate) eq_refl).
Defined.

(** X12.  The [Root] segments decide whether a header is accepted.  A
    header made of segments (without [;]) none of which has a key spelled
    like [root] is rejected, with the error that quotes the header.  When
    a segment [key=val] with [key] spelled like [root] is followed by no
    other such segment, the header is rejected if [val] is empty and
    accepted with [TraceID = val] otherwise, whatever the other segments
    are. *)
Theorem root_segment_decides :
  (∀ segments : list string,
     Forall NoSemicolon segments →
     Forall (λ segment, strings.ToLower <$> segmentKey segment ≠ Some "root")
       segments →
     let header := strings.Join segments ";" in
     UnmarshalAmazonTraceContext header =
       (None, Some (PropagationError (errorPrefix +:+ header) None))) ∧
  (∀ (before after : list string) (key val : string),
     Forall NoSemicolon before → Forall NoSemicolon after → NoSemicolon val →
     strings.ToLower key = "root" →
     Forall (λ segment, strings.ToLower <$> segmentKey segment ≠ Some "root")
       after →
     let header := strings.Join (before ++ (key +:+ "=" +:+ val) :: after) ";" in
     (val = "" →
      UnmarshalAmazonTraceContext header =
        (None, Some (PropagationError (errorPrefix +:+ header) None))) ∧
     (val ≠ "" →
      ∃ ctx, UnmarshalAmazonTraceContext header = (Some ctx, None) ∧
             TraceID ctx = val)).
Proof.
  split.
  - intros segments Hall Hno header. apply Unmarshal_no_TraceID.
    subst header. rewrite scanSegments_Join by done.
    rewrite <- fieldOf_root. by rewrite fold_scan_fieldOf_other.
  - intros before after key val Hb Ha Hv Hk Hafter header.
    assert (TraceID (prop (scanSegments header)) = val) as Ht.
    { rewrite <- fieldOf_root, <- Hk. subst header.
      apply fieldOf_last_recognized; try done; by rewrite Hk. }
    split.
    + intros ->. by apply Unmarshal_no_TraceID.
    + intros Hne. exists (finalContext header). split.
      * apply Unmarshal_TraceID. by rewrite Ht.
      * by rewrite finalContext_TraceID.
Qed.

Lemma root_segment_decides_witness :
  UnmarshalAmazonTraceContext "Self=2-def;Parent=3-ghi;rootless=1" =
    (None, Some (PropagationError
                   (errorPrefix +:+ "Self=2-def;Parent=3-ghi;rootless=1") None)) ∧
  UnmarshalAmazonTraceContext "Root=1-abc;Self=2-def;ROOT=;foo=32" =
    (None, Some (PropagationError
                   (errorPrefix +:+ "Root=1-abc;Self=2-def;ROOT=;foo=32") None)) ∧
  (∃ ctx, UnmarshalAmazonTraceContext "Root=;Self=2-def;rOOt=9-xyz" =
            (Some ctx, None) ∧ TraceID ctx = "9-xyz").
Proof.
  destruct root_segment_decides as [Hnone Hlast]. split; [|split].
  - apply (Hnone ["Self=2-def"; "Parent=3-ghi"; "rootless=1"]);
      by repeat constructor.
  - apply (Hlast ["Root=1-abc"; "Self=2-def"] ["foo=32"] "ROOT" "");
      solve [ by repeat constructor | reflexivity ].
  - apply (Hlast ["Root="; "Self=2-def"] [] "rOOt" "9-xyz");
      solve [ by repeat constructor | reflexivity | discriminate ].
Defined.
